(** * Gates of zquantum.core.circuit: a shallow embedding and its properties

    The development follows
      src/python/zquantum/core/circuit/gates/_gate.py
      src/python/zquantum/core/circuit/conversions/symbolic_expressions.py

    Python objects live in a store addressed by locations, methods are
    computations in a state-and-exception monad, warnings are collected in
    the state.  The symbolic library (sympy) and numpy are not part of the
    repository: the parts whose behaviour is fixed by their data model
    (classes, structural equality, free symbols, the closeness test on two
    complex doubles) are defined here, the numerical, rewriting, printing
    and parsing parts (evalf, subs, re, im, round, complex, str, sympify,
    and the C library's hypot behind numpy's absolute value) are operations
    of an interface. *)

From Stdlib Require Import ZArith Floats Bool List Lia.
From Stdlib Require DecimalString DecimalZ DecimalPos.
From stdpp Require Import base option list strings gmap.

Set Default Proof Using "Type".
#[local] Set Warnings "-inexact-float,-register-all,-clear-no-such-hyp".
Open Scope Z_scope.

(** ** The classes of the symbolic library *)

Inductive sympy_class :=
| cls_object | cls_Basic | cls_Expr | cls_Atom | cls_AtomicExpr | cls_AssocOp
| cls_Application | cls_Number | cls_Rational | cls_Integer | cls_Float
| cls_ImaginaryUnit | cls_Symbol | cls_Add | cls_Mul | cls_Pow
| cls_Function (name : string).

#[global] Instance sympy_class_eq_dec : EqDecision sympy_class.
Proof. solve_decision. Defined.

(** ** Symbolic expressions, as sympy builds them *)

(** A sympy [Float] at the default precision carries a 53 bit mantissa; it
    is modelled by a binary64 value. *)
Inductive expr :=
| Integer (z : Z)
| Rational (p : Z) (q : positive)
| Float (f : float)
| ImaginaryUnit
| Symbol (name : string)
| Add (args : list expr)
| Mul (args : list expr)
| Pow (base exponent : expr)
| Function (name : string) (args : list expr).

Section expr_induction.
Variable P : expr -> Prop.
Hypothesis HInteger : forall z, P (Integer z).
Hypothesis HRational : forall p q, P (Rational p q).
Hypothesis HFloat : forall f, P (Float f).
Hypothesis HImaginaryUnit : P ImaginaryUnit.
Hypothesis HSymbol : forall name, P (Symbol name).
Hypothesis HAdd : forall args, Forall P args -> P (Add args).
Hypothesis HMul : forall args, Forall P args -> P (Mul args).
Hypothesis HPow : forall b e, P b -> P e -> P (Pow b e).
Hypothesis HFunction : forall name args, Forall P args -> P (Function name args).

Fixpoint expr_nested_ind (e : expr) : P e :=
  let fix go (l : list expr) : Forall P l :=
    match l with
    | [] => @List.Forall_nil _ P
    | x :: l' => @List.Forall_cons _ P x l' (expr_nested_ind x) (go l')
    end in
  match e with
  | Integer z => HInteger z
  | Rational p q => HRational p q
  | Float f => HFloat f
  | ImaginaryUnit => HImaginaryUnit
  | Symbol name => HSymbol name
  | Add args => HAdd args (go args)
  | Mul args => HMul args (go args)
  | Pow b e' => HPow b e' (expr_nested_ind b) (expr_nested_ind e')
  | Function name args => HFunction name args (go args)
  end.
End expr_induction.

(** [type(e)] *)
Definition class_of (e : expr) : sympy_class :=
  match e with
  | Integer _ => cls_Integer
  | Rational _ _ => cls_Rational
  | Float _ => cls_Float
  | ImaginaryUnit => cls_ImaginaryUnit
  | Symbol _ => cls_Symbol
  | Add _ => cls_Add
  | Mul _ => cls_Mul
  | Pow _ _ => cls_Pow
  | Function name _ => cls_Function name
  end.

(** The method resolution order of each class ([Symbol]'s Boolean base, which
    no code of the repository tests for, is left out). *)
Definition mro (c : sympy_class) : list sympy_class :=
  match c with
  | cls_object => [cls_object]
  | cls_Basic => [cls_Basic; cls_object]
  | cls_Expr => [cls_Expr; cls_Basic; cls_object]
  | cls_Atom => [cls_Atom; cls_Basic; cls_object]
  | cls_AtomicExpr => [cls_AtomicExpr; cls_Atom; cls_Expr; cls_Basic; cls_object]
  | cls_AssocOp => [cls_AssocOp; cls_Basic; cls_object]
  | cls_Application => [cls_Application; cls_Basic; cls_object]
  | cls_Number =>
      [cls_Number; cls_AtomicExpr; cls_Atom; cls_Expr; cls_Basic; cls_object]
  | cls_Rational =>
      [cls_Rational; cls_Number; cls_AtomicExpr; cls_Atom; cls_Expr; cls_Basic;
       cls_object]
  | cls_Integer =>
      [cls_Integer; cls_Rational; cls_Number; cls_AtomicExpr; cls_Atom; cls_Expr;
       cls_Basic; cls_object]
  | cls_Float =>
      [cls_Float; cls_Number; cls_AtomicExpr; cls_Atom; cls_Expr; cls_Basic;
       cls_object]
  | cls_ImaginaryUnit =>
      [cls_ImaginaryUnit; cls_AtomicExpr; cls_Atom; cls_Expr; cls_Basic; cls_object]
  | cls_Symbol =>
      [cls_Symbol; cls_AtomicExpr; cls_Atom; cls_Expr; cls_Basic; cls_object]
  | cls_Add => [cls_Add; cls_Expr; cls_AssocOp; cls_Basic; cls_object]
  | cls_Mul => [cls_Mul; cls_Expr; cls_AssocOp; cls_Basic; cls_object]
  | cls_Pow => [cls_Pow; cls_Expr; cls_Basic; cls_object]
  | cls_Function name =>
      [cls_Function name; cls_Application; cls_Expr; cls_Basic; cls_object]
  end.

(** [isinstance(e, c)] and [isinstance(e, (c1, ..., cn))] *)
Definition isinstance (e : expr) (c : sympy_class) : bool :=
  bool_decide (c ∈ mro (class_of e)).

Definition isinstance_any (e : expr) (cs : list sympy_class) : bool :=
  existsb (isinstance e) cs.

(** Structural equality of expressions, sympy's [==]: the same class and
    equal arguments (a float and an integer, or a rational, are of different
    classes). *)
Fixpoint expr_eqb (a b : expr) : bool :=
  let fix all2 (l1 l2 : list expr) : bool :=
    match l1, l2 with
    | [], [] => true
    | x :: l1', y :: l2' => expr_eqb x y && all2 l1' l2'
    | _, _ => false
    end in
  match a, b with
  | Integer x, Integer y => bool_decide (x = y)
  | Rational p q, Rational p' q' => bool_decide (p = p') && bool_decide (q = q')
  | Float f, Float f' => PrimFloat.Leibniz.eqb f f'
  | ImaginaryUnit, ImaginaryUnit => true
  | Symbol x, Symbol y => bool_decide (x = y)
  | Add l1, Add l2 => all2 l1 l2
  | Mul l1, Mul l2 => all2 l1 l2
  | Pow b1 e1, Pow b2 e2 => expr_eqb b1 b2 && expr_eqb e1 e2
  | Function f l1, Function g l2 => bool_decide (f = g) && all2 l1 l2
  | _, _ => false
  end.

(** [e.free_symbols]: the symbols of [e], by name. *)
Fixpoint free_symbols (e : expr) : gset string :=
  let fix go (l : list expr) : gset string :=
    match l with
    | [] => ∅
    | x :: l' => free_symbols x ∪ go l'
    end in
  match e with
  | Symbol name => {[ name ]}
  | Add args | Mul args | Function _ args => go args
  | Pow b e' => free_symbols b ∪ free_symbols e'
  | _ => ∅
  end.

(** ** Python complex numbers *)

Definition pycomplex : Type := float * float.

Definition csub (x y : pycomplex) : pycomplex :=
  ((x.1 - y.1)%float, (x.2 - y.2)%float).

Definition float_isfinite (f : float) : bool :=
  negb (PrimFloat.is_nan f || PrimFloat.is_infinity f).

Definition isfinite (x : pycomplex) : bool :=
  float_isfinite x.1 && float_isfinite x.2.

Definition rtol : float := 1e-05%float.
Definition atol : float := 1e-08%float.

(** ** Exceptions, warnings and results *)

(** The two messages of [ValueError] that [CustomGate] builds (the first
    one interpolates [matrix.shape] and [len(qubits)]), and the one of
    [sympy.Matrix] on rows of different lengths. *)
Inductive value_error :=
| InvalidShape (shape : nat * nat) (nqubits : nat)
| QubitsNotUnique
| MismatchedDimensions.

Inductive exn :=
| ValueError (msg : value_error)
| AttributeError (attr : string)
| TypeError
| FileNotFoundError (filename : string)
| NotImplementedError (expression : expr) (type : sympy_class)
| SympifyError (text : string).

Inductive result (A : Type) :=
| Ok (a : A)
| Raise (e : exn).
Arguments Ok {A} a.
Arguments Raise {A} e.

(** A key of the mapping given to [evaluate]: a Python string or a sympy
    symbol (both are accepted by [subs]). *)
Inductive key :=
| KStr (s : string)
| KSym (name : string).

Definition substitution : Type := list (key * expr).

(** The two warnings of [evaluate]; the second one interpolates the gate's
    symbols and the keys of the mapping. *)
Inductive warning :=
| NotParameterized
| SymbolsMismatch (in_circuit : gset string) (in_map : list key).

(** What [sympy.sympify] makes of a string that it can parse: a symbolic
    expression, or an object that is none (for ["gamma"] the function class
    of that name).  Such an object is given by the exception that a call of
    [evalf] on it raises (TypeError for a class). *)
Inductive sympified :=
| Expression (e : expr)
| NotExpression (evalf_raises : exn).

(** ** The operations of sympy, of Python's numeric builtins and of the C
    library

    What the repository's code calls and this development does not define:
    their results are left open, apart from a few facts about numbers, the
    imaginary unit and symbols. *)
Class SympyLib := {
  (** [e.evalf()] *)
  evalf : expr -> expr;
  (** [str(e)] *)
  str : expr -> string;
  (** [sympy.sympify(s)]: it raises SympifyError on a string it cannot
      parse *)
  sympify : string -> result sympified;
  (** [e.subs(symbols_map)] *)
  subs : expr -> substitution -> expr;
  (** [sympy.re(e)], [sympy.im(e)] *)
  re : expr -> expr;
  im : expr -> expr;
  (** [round(e, ndigits)] *)
  round : expr -> Z -> expr;
  (** [complex(a, b)] *)
  complex : expr -> expr -> result pycomplex;
  (** what a matrix stores when a Python complex is assigned to an entry *)
  sympify_complex : pycomplex -> expr;
  (** [hypot(x, y)] of the C library, from which numpy takes the absolute
      value of a complex double; how it rounds is the platform's *)
  hypot : float -> float -> float;
  (** [hypot(x, 0)] is [fabs(x)] (C11, F.10.4.3) *)
  hypot_zero : forall x, hypot x 0%float = PrimFloat.abs x;
  (** a symbol has no numerical value *)
  complex_of_Symbol :
    forall name, complex (re (Symbol name)) (im (Symbol name)) = Raise TypeError;
  (** a float is its own real part, its imaginary part is zero *)
  complex_of_Float :
    forall f, float_isfinite f = true ->
      complex (re (Float f)) (im (Float f)) = Ok (f, 0%float);
  (** two numbers, rounded, make a complex number *)
  complex_of_Numbers :
    forall a b n, isinstance a cls_Number = true -> isinstance b cls_Number = true ->
      exists c, complex (round a n) (round b n) = Ok c;
  (** numerical evaluation brings in no symbol *)
  evalf_free_symbols : forall e, free_symbols (evalf e) ⊆ free_symbols e;
  (** the imaginary unit evaluates to [1.0*I] *)
  evalf_ImaginaryUnit : evalf ImaginaryUnit = Mul [Float 1; ImaginaryUnit];
  (** integers and the imaginary unit are read back as they were printed *)
  sympify_str_Integer :
    forall z, sympify (str (Integer z)) = Ok (Expression (Integer z));
  sympify_str_ImaginaryUnit :
    sympify (str ImaginaryUnit) = Ok (Expression ImaginaryUnit)
}.

(** ** numpy's closeness test *)

Section closeness.
Context {L : SympyLib}.

(** [abs] of a complex double: numpy takes it from [hypot]. *)
Definition cabs (x : pycomplex) : float := hypot x.1 x.2.

(** [numpy.isclose]'s [within_tol]: [abs(x - y) <= atol + rtol * abs(y)] *)
Definition within_tol (x y : pycomplex) : bool :=
  PrimFloat.leb (cabs (csub x y)) (atol + rtol * cabs y)%float.

(** [numpy.allclose(x, y)] on two scalars, with the default tolerances:
    finite values are compared within the tolerance, the others by [==]. *)
Definition allclose (x y : pycomplex) : bool :=
  if isfinite x && isfinite y then within_tol x y
  else PrimFloat.eqb x.1 y.1 && PrimFloat.eqb x.2 y.2.

End closeness.

(** ** The store of Python objects *)

Definition loc : Type := nat.

(** A sympy matrix: its shape and its entries in row-major order. *)
Record Matrix := { rows : nat; cols : nat; entries : list expr }.

Definition shape (m : Matrix) : nat * nat := (rows m, cols m).

(** [len(m)] *)
Definition Matrix_len (m : Matrix) : nat := (rows m * cols m)%nat.

(** [m.row(i)] *)
Definition row (m : Matrix) (i : nat) : list expr :=
  take (cols m) (drop (i * cols m) (entries m)).

(** [sympy.Matrix(rows)], from a list of rows *)
Definition Matrix_of_rows (rs : list (list expr)) : option Matrix :=
  let c := match rs with [] => 0%nat | r :: _ => length r end in
  if forallb (fun r => bool_decide (length r = c)) rs
  then Some {| rows := length rs; cols := c; entries := concat rs |}
  else None.

(** The expressions among a list of objects. *)
Definition the_expressions (values : list sympified) : list expr :=
  omap (fun value => match value with
                     | Expression e => Some e
                     | NotExpression _ => None
                     end) values.

(** What the first failing call of [evalf] raises, when [evalf] is called
    on the objects of a list one after the other: nothing when all are
    expressions. *)
Fixpoint first_evalf_error (values : list sympified) : option exn :=
  match values with
  | [] => None
  | Expression _ :: rest => first_evalf_error rest
  | NotExpression e :: _ => Some e
  end.

(** [m[index] = value] *)
Definition setitem (m : Matrix) (index : nat) (value : expr) : Matrix :=
  {| rows := rows m; cols := cols m; entries := <[index := value]> (entries m) |}.

(** The two concrete kinds of gate.  A specialized gate is given by what its
    [_create_matrix] returns (the subclasses are not part of the module). *)
Inductive gate_class :=
| CustomGate_cls
| SpecializedGate_cls (_create_matrix : Matrix).

(** The attributes of a gate object; [_matrix] is [None] or a reference. *)
Record Gate := { gate_cls : gate_class; qubits : list Z; _matrix : option loc }.

Inductive pyobject :=
| MatrixObj (m : Matrix)
| GateObj (g : Gate).

Inductive pyval :=
| PyNone
| PyInt (z : Z)
| PyRef (l : loc).

Record state := { heap : list pyobject; warnings : list warning }.

(** The dictionary [to_dict] returns.  Its matrix is a list of rows, each
    the list ["elements"] of the strings of a row, or the matrix object
    itself; its symbolic parameters are a list of names or the set itself. *)
Inductive dict_matrix :=
| Rows (elements : list (list string))
| RawMatrix (ml : loc).

Inductive dict_params :=
| ParamNames (names : list string)
| RawParams (params : gset string).

Record gate_dict := {
  d_schema : string;
  d_qubits : list Z;
  d_matrix : dict_matrix;
  d_symbolic_params : dict_params
}.

(** The files [save] writes and [load] reads: the JSON text of a file is
    taken as the dictionary it encodes. *)
Abbreviation files := (gmap string gate_dict).

(** ** The monad of Python computations *)

Definition M (A : Type) : Type := state -> result A * state.

Definition ret {A} (a : A) : M A := fun s => (Ok a, s).

Definition bind {A B} (c : M A) (k : A -> M B) : M B :=
  fun s => match c s with
           | (Ok a, s') => k a s'
           | (Raise e, s') => (Raise e, s')
           end.

Notation "x <- c1 ;; c2" := (bind c1 (fun x => c2))
  (at level 100, c1 at next level, right associativity).
Notation "c1 ;; c2" := (bind c1 (fun _ => c2))
  (at level 100, right associativity).

Definition raise {A} (e : exn) : M A := fun s => (Raise e, s).

Definition lift {A} (r : result A) : M A := fun s => (r, s).

(** [warnings.warn(w)] *)
Definition warn (w : warning) : M unit :=
  fun s => (Ok tt, {| heap := heap s; warnings := warnings s ++ [w] |}).

(** a new object *)
Definition alloc (o : pyobject) : M loc :=
  fun s => (Ok (length (heap s)), {| heap := heap s ++ [o]; warnings := warnings s |}).

Definition store (l : loc) (o : pyobject) : M unit :=
  fun s => (Ok tt, {| heap := <[l := o]> (heap s); warnings := warnings s |}).

(** the matrix object behind a reference *)
Definition read_matrix (l : loc) : M Matrix :=
  fun s => match heap s !! l with
           | Some (MatrixObj m) => (Ok m, s)
           | _ => (Raise TypeError, s)
           end.

(** the gate object behind a value, for the access to attribute [attr] *)
Definition read_gate (attr : string) (v : pyval) : M Gate :=
  fun s => match v with
           | PyRef l =>
               match heap s !! l with
               | Some (GateObj g) => (Ok g, s)
               | _ => (Raise (AttributeError attr), s)
               end
           | _ => (Raise (AttributeError attr), s)
           end.

(** [any(p(x) for x in l)], left to right, stopping at the first hit *)
Fixpoint any {A} (p : A -> M bool) (l : list A) : M bool :=
  match l with
  | [] => ret false
  | x :: l' => b <- p x ;; if b then ret true else any p l'
  end.

(** [for index, element in enumerate(matrix): matrix[index] = f(element)],
    on the matrix object at [ml]. *)
Fixpoint for_each_element (ml : loc) (f : expr -> result expr)
    (indices : list nat) : M unit :=
  match indices with
  | [] => ret tt
  | index :: rest =>
      m <- read_matrix ml ;;
      match entries m !! index with
      | None => ret tt
      | Some element =>
          new_element <- lift (f element) ;;
          store ml (MatrixObj (setitem m index new_element)) ;;
          for_each_element ml f rest
      end
  end.

(** [copy.deepcopy] of a matrix and of a gate *)
Definition deepcopy_matrix (ml : loc) : M loc :=
  m <- read_matrix ml ;; alloc (MatrixObj m).

Definition deepcopy_gate (self : loc) : M loc :=
  g <- read_gate "__deepcopy__" (PyRef self) ;;
  match _matrix g with
  | None => alloc (GateObj g)
  | Some ml =>
      ml' <- deepcopy_matrix ml ;;
      alloc (GateObj {| gate_cls := gate_cls g; qubits := qubits g; _matrix := Some ml' |})
  end.

(** ** Gates in the store: the predicates of the statements *)

Definition Matrix_map (g : expr -> expr) (m : Matrix) : Matrix :=
  {| rows := rows m; cols := cols m; entries := map g (entries m) |}.

(** The gate object [g] is at [self], and [m] is the matrix its property
    [matrix] stands for: the object [_matrix] refers to, or the matrix
    [_create_matrix] returns as long as [_matrix] is [None]. *)
Definition gate_at (s : state) (self : loc) (g : Gate) (m : Matrix) : Prop :=
  heap s !! self = Some (GateObj g) /\
  match _matrix g with
  | Some ml => heap s !! ml = Some (MatrixObj m)
  | None => gate_cls g = SpecializedGate_cls m
  end.

(** The same, once [_matrix] refers to the matrix object at [ml]. *)
Definition gate_stored (s : state) (self : loc) (g : Gate) (ml : loc) (m : Matrix)
    : Prop :=
  heap s !! self = Some (GateObj g) /\ _matrix g = Some ml /\
  heap s !! ml = Some (MatrixObj m).

(** Every object of [s] but the one at [self] is the same in [s']. *)
Definition others_kept (self : loc) (s s' : state) : Prop :=
  forall l o, l <> self -> heap s !! l = Some o -> heap s' !! l = Some o.

(** The set [symbolic_params] computes from a matrix. *)
Definition params_of (m : Matrix) : gset string := ⋃ (map free_symbols (entries m)).

(** [v] has an attribute [qubits]: it refers to a gate. *)
Definition hasattr_qubits (s : state) (v : pyval) : bool :=
  match v with
  | PyRef l => match heap s !! l with Some (GateObj _) => true | _ => false end
  | _ => false
  end.

(** The invariant of the data model: the matrix is square of side
    [2 ^ len(qubits)] and holds that many entries, the qubits are pairwise
    distinct. *)
Definition valid_gate (g : Gate) (m : Matrix) : Prop :=
  shape m = (2 ^ length (qubits g), 2 ^ length (qubits g))%nat /\
  length (entries m) = Matrix_len m /\
  NoDup (qubits g).

(** ** class Gate *)

Section Gate.
Context {L : SympyLib}.

(** [SCHEMA_VERSION] of [zquantum.core.utils] *)
Variable SCHEMA_VERSION : string.

(** [v.qubits] *)
Definition get_qubits (v : pyval) : M (list Z) :=
  g <- read_gate "qubits" v ;; ret (qubits g).

(** The property [matrix].  [CustomGate] returns [self._matrix];
    [SpecializedGate] first sets [self._matrix] to [self._create_matrix()]
    when it is [None]. *)
Definition matrix (v : pyval) : M loc :=
  g <- read_gate "matrix" v ;;
  match _matrix g, gate_cls g, v with
  | Some ml, _, _ => ret ml
  | None, SpecializedGate_cls created, PyRef self =>
      ml <- alloc (MatrixObj created) ;;
      store self (GateObj {| gate_cls := gate_cls g; qubits := qubits g;
                             _matrix := Some ml |}) ;;
      ret ml
  | None, _, _ => raise (AttributeError "_matrix")
  end.

(** The entries that [for element in v.matrix] goes through. *)
Definition matrix_elements (v : pyval) : M (list expr) :=
  ml <- matrix v ;; m <- read_matrix ml ;; ret (entries m).

Definition symbolic_params (v : pyval) : M (gset string) :=
  elements <- matrix_elements v ;;
  ret (⋃ (map free_symbols
            (List.filter (fun element => isinstance element cls_Expr) elements))).

Definition is_valid_operator (m : Matrix) (qs : list Z) : bool :=
  bool_decide (shape m = (2 ^ length qs, 2 ^ length qs)%nat).

Definition numeric_like : list sympy_class := [cls_Number; cls_Mul; cls_Add].

Definition are_elements_equal (element another_element : expr) : result bool :=
  if expr_eqb element another_element then Ok true
  else if isinstance_any another_element numeric_like
          && isinstance_any another_element numeric_like
  then
    match complex (re element) (im element) with
    | Raise e => Raise e
    | Ok x =>
        match complex (re another_element) (im another_element) with
        | Raise e => Raise e
        | Ok y => Ok (allclose x y)
        end
    end
  else Ok false.

Definition are_qubits_unique (qs : list Z) : bool :=
  bool_decide (length qs = size (list_to_set qs : gset Z)).

Definition is_parameterized (v : pyval) : M bool :=
  elements <- matrix_elements v ;;
  ret (existsb (fun element => isinstance element cls_Expr) elements).

Definition __eq__ (self another_gate : pyval) : M bool :=
  qs <- get_qubits self ;;
  qs' <- get_qubits another_gate ;;
  if negb (bool_decide (length qs = length qs')) then ret false
  else if existsb (fun p => negb (bool_decide (p.1 = p.2))) (zip qs qs')
  then ret false
  else
    ml <- matrix self ;; m <- read_matrix ml ;;
    ml' <- matrix another_gate ;; m' <- read_matrix ml' ;;
    if negb (bool_decide (Matrix_len m = Matrix_len m')) then ret false
    else
      params <- symbolic_params self ;;
      params' <- symbolic_params another_gate ;;
      if negb (bool_decide (params = params')) then ret false
      else
        elements <- matrix_elements self ;;
        elements' <- matrix_elements another_gate ;;
        differ <- any (fun p => r <- lift (are_elements_equal p.1 p.2) ;;
                                ret (negb r))
                      (zip elements elements') ;;
        if differ then ret false else ret true.

(** ** class CustomGate: the constructor *)

Definition CustomGate (matrix_arg : loc) (qs : list Z) : M loc :=
  m <- read_matrix matrix_arg ;;
  if negb (is_valid_operator m qs)
  then raise (ValueError (InvalidShape (shape m) (length qs)))
  else if negb (are_qubits_unique qs)
  then raise (ValueError QubitsNotUnique)
  else
    copied_matrix <- deepcopy_matrix matrix_arg ;;
    for_each_element copied_matrix (fun element => Ok (evalf element))
                     (seq 0 (length (entries m))) ;;
    alloc (GateObj {| gate_cls := CustomGate_cls; qubits := qs;
                      _matrix := Some copied_matrix |}).

(** ** Gate.evaluate *)

(** [symbol not in params], for a set of sympy symbols: a string is never
    one of them. *)
Definition key_in (symbol : key) (params : gset string) : bool :=
  match symbol with
  | KStr _ => false
  | KSym name => bool_decide (name ∈ params)
  end.

(** The body of the loop of [evaluate]. *)
Definition evaluate_element (symbols_map : substitution) (element : expr)
    : result expr :=
  let new_element := evalf (subs element symbols_map) in
  if isinstance (re new_element) cls_Number
     && isinstance (im new_element) cls_Number
  then
    match complex (round (re new_element) 16) (round (im new_element) 16) with
    | Raise e => Raise e
    | Ok c => Ok (sympify_complex c)
    end
  else Ok new_element.

Definition evaluate (self : loc) (symbols_map : substitution) : M loc :=
  parameterized <- is_parameterized (PyRef self) ;;
  if negb parameterized
  then warn NotParameterized ;; deepcopy_gate self
  else
    mismatch <- any (fun symbol => params <- symbolic_params (PyRef self) ;;
                                   ret (negb (key_in symbol params)))
                    (map fst symbols_map) ;;
    (if mismatch
     then params <- symbolic_params (PyRef self) ;;
          warn (SymbolsMismatch params (map fst symbols_map))
     else ret tt) ;;
    ml <- matrix (PyRef self) ;;
    evaluated_matrix <- deepcopy_matrix ml ;;
    m <- read_matrix evaluated_matrix ;;
    for_each_element evaluated_matrix (evaluate_element symbols_map)
                     (seq 0 (length (entries m))) ;;
    qs <- get_qubits (PyRef self) ;;
    CustomGate evaluated_matrix qs.

(** ** Gate.to_dict, Gate.save, Gate.load *)

Definition to_dict (self : pyval) (serializable : bool) : M gate_dict :=
  if serializable then
    qs <- get_qubits self ;;
    ml <- matrix self ;;
    m <- read_matrix ml ;;
    params <- symbolic_params self ;;
    ret {| d_schema := SCHEMA_VERSION ++ "-gate";
           d_qubits := qs;
           d_matrix := Rows (map (fun i => map str (row m i)) (seq 0 (rows m)));
           d_symbolic_params := ParamNames (elements params) |}
  else
    qs <- get_qubits self ;;
    ml <- matrix self ;;
    params <- symbolic_params self ;;
    ret {| d_schema := SCHEMA_VERSION ++ "-gate";
           d_qubits := qs;
           d_matrix := RawMatrix ml;
           d_symbolic_params := RawParams params |}.


(** The loops of [load] over the rows and their strings: every string goes
    through [sympify], in row-major order, and the first one that raises
    ends the call. *)
Fixpoint sympify_row (elements : list string) : result (list sympified) :=
  match elements with
  | [] => Ok []
  | element :: rest =>
      match sympify element with
      | Raise e => Raise e
      | Ok value =>
          match sympify_row rest with
          | Raise e => Raise e
          | Ok values => Ok (value :: values)
          end
      end
  end.

Fixpoint sympify_rows (rs : list (list string)) : result (list (list sympified)) :=
  match rs with
  | [] => Ok []
  | r :: rest =>
      match sympify_row r with
      | Raise e => Raise e
      | Ok new_row =>
          match sympify_rows rest with
          | Raise e => Raise e
          | Ok new_rows => Ok (new_row :: new_rows)
          end
      end
  end.

(** [CustomGate(sympy.Matrix(cells), qs)] when some object of [cells] is no
    expression, [evalf_raises] being what [evalf] raises on the first one.
    The store holds matrices of expressions only: the matrix built here,
    which nothing refers to once the call has raised, is not put there.
    The constructor of the matrix checks the lengths of the rows, the
    constructor of the gate the shape and the qubits, and the loop over the
    copy raises at the first object that is no expression. *)
Definition CustomGate_of_objects (cells : list (list sympified)) (qs : list Z)
    (evalf_raises : exn) : M loc :=
  let c := match cells with [] => 0%nat | r :: _ => length r end in
  if negb (forallb (fun r => bool_decide (length r = c)) cells)
  then raise (ValueError MismatchedDimensions)
  else if negb (bool_decide ((length cells, c) = (2 ^ length qs, 2 ^ length qs)%nat))
  then raise (ValueError (InvalidShape (length cells, c) (length qs)))
  else if negb (are_qubits_unique qs)
  then raise (ValueError QubitsNotUnique)
  else raise evalf_raises.

(** [Gate.load(data)] for a dictionary, and for the name of a file. *)
Definition load (data : gate_dict) : M loc :=
  let qs := d_qubits data in
  match d_matrix data with
  | Rows rs =>
      cells <- lift (sympify_rows rs) ;;
      match first_evalf_error (concat cells) with
      | None =>
          match Matrix_of_rows (map the_expressions cells) with
          | Some m => ml <- alloc (MatrixObj m) ;; CustomGate ml qs
          | None => raise (ValueError MismatchedDimensions)
          end
      | Some evalf_raises => CustomGate_of_objects cells qs evalf_raises
      end
  | RawMatrix ml => CustomGate ml qs
  end.


(** ** The same methods, on gates whose matrix is stored *)

(** On gates whose matrices are stored, [==] reads the store and leaves it
    alone: its result is a function of the qubits and the two matrices. *)
Fixpoint any_differ (pairs : list (expr * expr)) : result bool :=
  match pairs with
  | [] => Ok false
  | p :: rest =>
      match are_elements_equal p.1 p.2 with
      | Raise e => Raise e
      | Ok true => any_differ rest
      | Ok false => Ok true
      end
  end.

Definition compare_contents (qs qs' : list Z) (m m' : Matrix) : result bool :=
  if negb (bool_decide (length qs = length qs')) then Ok false
  else if existsb (fun p : Z * Z => negb (bool_decide (p.1 = p.2))) (zip qs qs')
  then Ok false
  else if negb (bool_decide (Matrix_len m = Matrix_len m')) then Ok false
  else if negb (bool_decide (params_of m = params_of m')) then Ok false
  else match any_differ (zip (entries m) (entries m')) with
       | Raise e => Raise e
       | Ok differ => Ok (negb differ)
       end.

(** What the loop of [evaluate] stores for an entry. *)
Definition evaluated (symbols_map : substitution) (element : expr) : expr :=
  match evaluate_element symbols_map element with
  | Ok new_element => new_element
  | Raise _ => element
  end.

(** The warning about symbols, if [evaluate] emits it. *)
Definition mismatch_warnings (params : gset string) (keys : list key)
    : list warning :=
  if existsb (fun symbol => negb (key_in symbol params)) keys
  then [SymbolsMismatch params keys]
  else [].


(** The part of [evaluate] after the warnings. *)
Definition evaluate_matrix (self : loc) (symbols_map : substitution) : M loc :=
  ml <- matrix (PyRef self) ;;
  evaluated_matrix <- deepcopy_matrix ml ;;
  m <- read_matrix evaluated_matrix ;;
  for_each_element evaluated_matrix (evaluate_element symbols_map)
                   (seq 0 (length (entries m))) ;;
  qs <- get_qubits (PyRef self) ;;
  CustomGate evaluated_matrix qs.

End Gate.

(** ** class SpecializedGate: the constructor

    [self._matrix = None], then [Gate.__init__] sets the qubits; [created]
    is what the subclass's [_create_matrix] will return. *)
Definition SpecializedGate (created : Matrix) (qs : list Z) : M loc :=
  alloc (GateObj {| gate_cls := SpecializedGate_cls created; qubits := qs;
                    _matrix := None |}).

(** The grammar the specification calls supported, in its words: numbers,
    symbols, common arithmetic, trigonometric and exponential operators. *)
Definition spec_supported_functions : list string :=
  ["sin"; "cos"; "tan"; "exp"]%string.

Fixpoint spec_supported_grammar (e : expr) : bool :=
  let fix all (l : list expr) : bool :=
    match l with
    | [] => true
    | x :: l' => spec_supported_grammar x && all l'
    end in
  match e with
  | Integer _ | Rational _ _ | Float _ | Symbol _ => true
  | Add args | Mul args => all args
  | Pow b e' => spec_supported_grammar b && spec_supported_grammar e'
  | Function name args => bool_decide (name ∈ spec_supported_functions) && all args
  | ImaginaryUnit => false
  end.

(** ** symbolic_expressions.py: the expression tree and its conversion *)

Module symbolic_expressions.

(** [numbers.Number]: the numeric leaves of a tree *)
Inductive Number :=
| PyInteger (z : Z)
| PyFloat (f : float)
| PyComplex (c : pycomplex).

(** [Expression = Union[Symbol, FunctionCall, Number]] *)
Inductive Expression :=
| Symbol (name : string)
| FunctionCall (name : string) (args : list Expression)
| Num (n : Number).

(** An implementation registered for a class, and the registry of a
    [functools.singledispatch] function: dispatch goes through the method
    resolution order of the argument's class and takes the first class
    with a registered implementation, the decorated function otherwise. *)
Definition implementation : Type := expr -> result Expression.
Definition registry : Type := list (sympy_class * implementation).

Definition registered (reg : registry) (c : sympy_class) : option implementation :=
  snd <$> List.find (fun entry => bool_decide (entry.1 = c)) reg.

Fixpoint dispatch (reg : registry) (classes : list sympy_class)
    : option implementation :=
  match classes with
  | [] => None
  | c :: rest =>
      match registered reg c with
      | Some f => Some f
      | None => dispatch reg rest
      end
  end.

Definition singledispatch (default : implementation) (reg : registry)
    : implementation :=
  fun expression =>
    match dispatch reg (mro (class_of expression)) with
    | Some f => f expression
    | None => default expression
    end.

(** The module registers no implementation. *)
Definition expression_tree_from_sympy : implementation :=
  singledispatch
    (fun expression => Raise (NotImplementedError expression (class_of expression)))
    [].

End symbolic_expressions.

(** ** A reference implementation of the library operations

    It evaluates, prints and parses numbers, the imaginary unit and
    symbols, and does nothing of interest with any other expression.  It
    shows that the facts the interface states can be met, and lets the
    gates be run on concrete inputs. *)

Definition float_of_Z (z : Z) : float :=
  SF2Prim (binary_normalize prec emax z 0 false).

Definition to_float (e : expr) : option float :=
  match e with
  | Integer z => Some (float_of_Z z)
  | Rational p q => Some (float_of_Z p / float_of_Z (Zpos q))%float
  | Float f => Some f
  | _ => None
  end.

Definition key_name (k : key) : string :=
  match k with KStr s => s | KSym s => s end.

Definition ref_evalf (e : expr) : expr :=
  match e with
  | Integer 0 => Integer 0
  | ImaginaryUnit => Mul [Float 1; ImaginaryUnit]
  | _ => match to_float e with
         | Some f => Float f
         | None => e
         end
  end.

(** Integers in decimal, the imaginary unit as [I], a symbol as its name. *)
Definition ref_str (e : expr) : string :=
  match e with
  | Integer z => DecimalString.NilZero.string_of_int (Z.to_int z)
  | ImaginaryUnit => "I"
  | Symbol name => name
  | _ => "nan"
  end.

(** The empty string is not parsed, [gamma] is a function class, any other
    string that is no integer and not [I] is a symbol. *)
Definition ref_sympify (s : string) : result sympified :=
  match DecimalString.NilZero.int_of_string s with
  | Some d => Ok (Expression (Integer (Z.of_int d)))
  | None =>
      if bool_decide (s = ""%string) then Raise (SympifyError s)
      else if bool_decide (s = "gamma"%string) then Ok (NotExpression TypeError)
      else if bool_decide (s = "I"%string) then Ok (Expression ImaginaryUnit)
      else Ok (Expression (Symbol s))
  end.

Definition ref_subs (e : expr) (symbols_map : substitution) : expr :=
  match e with
  | Symbol name =>
      match List.find (fun kv => bool_decide (key_name kv.1 = name)) symbols_map with
      | Some kv => kv.2
      | None => e
      end
  | _ => e
  end.

Definition ref_re (e : expr) : expr :=
  match e with
  | Integer _ | Rational _ _ | Float _ => e
  | ImaginaryUnit => Integer 0
  | _ => Function "re" [e]
  end.

Definition ref_im (e : expr) : expr :=
  match e with
  | Integer _ | Rational _ _ | Float _ => Integer 0
  | ImaginaryUnit => Integer 1
  | _ => Function "im" [e]
  end.

Definition ref_complex (a b : expr) : result pycomplex :=
  match to_float a, to_float b with
  | Some x, Some y => Ok (x, y)
  | _, _ => Raise TypeError
  end.

Definition ref_sympify_complex (c : pycomplex) : expr :=
  if PrimFloat.eqb c.2 0 then Float c.1
  else Add [Float c.1; Mul [Float c.2; ImaginaryUnit]].

(** The length of the pair, scaled by the larger of the two coordinates. *)
Definition ref_hypot (x y : float) : float :=
  if PrimFloat.eqb y 0 then PrimFloat.abs x
  else if PrimFloat.eqb x 0 then PrimFloat.abs y
  else
    let a := PrimFloat.abs x in
    let b := PrimFloat.abs y in
    if PrimFloat.ltb a b
    then (b * PrimFloat.sqrt (1 + (a / b) * (a / b)))%float
    else (a * PrimFloat.sqrt (1 + (b / a) * (b / a)))%float.

#[program] Definition reference_lib : SympyLib :=
  {| evalf := ref_evalf; str := ref_str; sympify := ref_sympify;
     subs := ref_subs; re := ref_re; im := ref_im;
     round := fun e _ => e; complex := ref_complex;
     sympify_complex := ref_sympify_complex; hypot := ref_hypot |}.
Next Obligation. reflexivity. Qed.
Next Obligation. reflexivity. Qed.
Next Obligation. reflexivity. Qed.
Next Obligation.
  intros a b n Ha Hb.
  assert (Hnum : forall e, isinstance e cls_Number = true -> is_Some (to_float e)).
  { intros e. destruct e; simpl; eauto; intros H; vm_compute in H; discriminate. }
  destruct (Hnum a Ha) as [x Hx]. destruct (Hnum b Hb) as [y Hy].
  exists (x, y). unfold ref_complex. rewrite Hx, Hy. reflexivity.
Qed.
Next Obligation.
  intros e. unfold ref_evalf.
  destruct e as [z| | | | | | | |]; simpl; try set_solver.
  destruct z; simpl; set_solver.
Qed.
Next Obligation. reflexivity. Qed.
Next Obligation.
  intros z. unfold ref_sympify, ref_str.
  rewrite DecimalString.NilZero.isi.
  - rewrite DecimalZ.of_to. reflexivity.
  - destruct z as [|p|p]; simpl; try discriminate.
    intros H. injection H as H. revert H. apply DecimalPos.Unsigned.to_uint_nonnil.
  - destruct z as [|p|p]; simpl; try discriminate.
    intros H. injection H as H. revert H. apply DecimalPos.Unsigned.to_uint_nonnil.
Qed.
Next Obligation. reflexivity. Qed.

(** ** Concrete matrices, gates and stores *)

(** [Matrix([[1.0, 0], [0, 1.0]])] *)
Definition identity_matrix : Matrix :=
  {| rows := 2; cols := 2;
     entries := [Float 1; Integer 0; Integer 0; Float 1] |}.

(** [Matrix([[1.00001001005, 0], [0, 1.0]])] *)
Definition near_identity_matrix : Matrix :=
  {| rows := 2; cols := 2;
     entries := [Float 1.00001001005; Integer 0; Integer 0; Float 1] |}.

(** The matrix of a rotation about X by the symbol [theta]:
    [[cos(theta/2), -I*sin(theta/2)], [-I*sin(theta/2), cos(theta/2)]] *)
Definition half_theta : expr := Mul [Rational 1 2; Symbol "theta"].
Definition rx_matrix : Matrix :=
  {| rows := 2; cols := 2;
     entries := [Function "cos" [half_theta];
                 Mul [Integer (-1); ImaginaryUnit; Function "sin" [half_theta]];
                 Mul [Integer (-1); ImaginaryUnit; Function "sin" [half_theta]];
                 Function "cos" [half_theta]] |}.


(** [Matrix([[theta, 0], [0, theta]])] *)
Definition theta_matrix : Matrix :=
  {| rows := 2; cols := 2;
     entries := [Symbol "theta"; Integer 0; Integer 0; Symbol "theta"] |}.

Definition custom_gate (qs : list Z) (ml : loc) : Gate :=
  {| gate_cls := CustomGate_cls; qubits := qs; _matrix := Some ml |}.

(** A store with two custom gates on qubit 0, at locations 1 and 3. *)
Definition two_gates : state :=
  {| heap := [MatrixObj identity_matrix; GateObj (custom_gate [0] 0%nat);
              MatrixObj near_identity_matrix; GateObj (custom_gate [0] 2%nat)];
     warnings := [] |}.

(** A store with a specialized gate on qubit 0 whose matrix is not created
    yet, at location 0, and with a matrix at location 1. *)
Definition rx_gate : Gate :=
  {| gate_cls := SpecializedGate_cls rx_matrix; qubits := [0]; _matrix := None |}.

Definition rx_store : state :=
  {| heap := [GateObj rx_gate; MatrixObj identity_matrix]; warnings := [] |}.



(** A store with a custom gate on qubit 0 whose matrix is [theta_matrix],
    at location 1. *)
Definition theta_store : state :=
  {| heap := [MatrixObj theta_matrix; GateObj (custom_gate [0] 0%nat)];
     warnings := [] |}.

(** [Matrix([[1, 0], [0, 1]])], of integers, and a store with a
    specialized gate on qubit 0 whose [_create_matrix] returns it. *)
Definition integer_identity_matrix : Matrix :=
  {| rows := 2; cols := 2;
     entries := [Integer 1; Integer 0; Integer 0; Integer 1] |}.

Definition integer_gate : Gate :=
  {| gate_cls := SpecializedGate_cls integer_identity_matrix; qubits := [0];
     _matrix := None |}.

Definition integer_store : state :=
  {| heap := [GateObj integer_gate]; warnings := [] |}.

(** A store with a specialized gate on the qubits [(0, 0)] whose
    [_create_matrix] returns the one-qubit matrix of the rotation. *)
Definition repeated_gate : Gate :=
  {| gate_cls := SpecializedGate_cls rx_matrix; qubits := [0; 0]; _matrix := None |}.

Definition repeated_store : state :=
  {| heap := [GateObj repeated_gate]; warnings := [] |}.

(** A store with two specialized gates, on qubit 0 and on qubit 1, whose
    matrices are not created yet. *)
Definition rx_pair : state :=
  {| heap := [GateObj rx_gate;
              GateObj {| gate_cls := SpecializedGate_cls rx_matrix; qubits := [1];
                         _matrix := None |}];
     warnings := [] |}.

(** [Matrix([[0, theta], [theta, 0]])] *)
Definition theta_swapped_matrix : Matrix :=
  {| rows := 2; cols := 2;
     entries := [Integer 0; Symbol "theta"; Symbol "theta"; Integer 0] |}.

(** A store with two custom gates on qubit 0, at locations 1 and 3, with
    the matrices [theta_matrix] and [theta_swapped_matrix]. *)
Definition theta_pair : state :=
  {| heap := [MatrixObj theta_matrix; GateObj (custom_gate [0] 0%nat);
              MatrixObj theta_swapped_matrix; GateObj (custom_gate [0] 2%nat)];
     warnings := [] |}.

(** A store with a specialized gate on no qubit whose [_create_matrix]
    returns the matrix without entries, [Matrix([])]. *)
Definition empty_matrix : Matrix := {| rows := 0; cols := 0; entries := [] |}.

Definition empty_gate : Gate :=
  {| gate_cls := SpecializedGate_cls empty_matrix; qubits := []; _matrix := None |}.

Definition empty_store : state :=
  {| heap := [GateObj empty_gate]; warnings := [] |}.

(** * Properties *)

(** ** Expressions *)

Lemma expr_eqb_refl (e : expr) : expr_eqb e e = true.
Proof.
  induction e using expr_nested_ind; simpl;
    rewrite ?bool_decide_eq_true_2 by reflexivity; try reflexivity.
  - apply FloatAxioms.Leibniz.eqb_spec. reflexivity.
  - induction H as [|x l Hx _ IH]; [reflexivity|]. rewrite Hx. exact IH.
  - induction H as [|x l Hx _ IH]; [reflexivity|]. rewrite Hx. exact IH.
  - rewrite IHe1, IHe2. reflexivity.
  - induction H as [|x l Hx _ IH]; [reflexivity|]. rewrite Hx. exact IH.
Qed.

(** [==] on expressions holds of equal expressions only. *)
Lemma expr_eqb_eq (a b : expr) : expr_eqb a b = true <-> a = b.
Proof.
  split; [|intros <-; apply expr_eqb_refl].
  revert b. induction a as [z|p q|f| |name|args IH|args IH|b1 e1 IHb IHe|name args IH]
    using expr_nested_ind; intros [z'|p' q'|f'| |name'|args'|args'|b2 e2|name' args'];
    simpl; try discriminate; try reflexivity.
  - rewrite bool_decide_eq_true. congruence.
  - rewrite andb_true_iff, !bool_decide_eq_true. intros [-> ->]. reflexivity.
  - intros H. apply FloatAxioms.Leibniz.eqb_spec in H. congruence.
  - rewrite bool_decide_eq_true. congruence.
  - intros H. f_equal. revert args' H.
    induction IH as [|x l Hx _ IHl]; intros [|y l']; try discriminate; [reflexivity|].
    rewrite andb_true_iff. intros [H1 H2]. f_equal; [apply Hx; exact H1 | apply IHl; exact H2].
  - intros H. f_equal. revert args' H.
    induction IH as [|x l Hx _ IHl]; intros [|y l']; try discriminate; [reflexivity|].
    rewrite andb_true_iff. intros [H1 H2]. f_equal; [apply Hx; exact H1 | apply IHl; exact H2].
  - rewrite andb_true_iff. intros [H1 H2]. f_equal; [apply IHb | apply IHe]; assumption.
  - rewrite andb_true_iff, bool_decide_eq_true. intros [-> H]. f_equal. revert args' H.
    induction IH as [|x l Hx _ IHl]; intros [|y l']; try discriminate; [reflexivity|].
    rewrite andb_true_iff. intros [H1 H2]. f_equal; [apply Hx; exact H1 | apply IHl; exact H2].
Qed.

Lemma expr_eqb_neq (a b : expr) : expr_eqb a b = false <-> a <> b.
Proof. rewrite <- expr_eqb_eq. destruct (expr_eqb a b); split; congruence. Qed.

(** Every expression is an instance of [sympy.Expr]: numbers are. *)
Lemma isinstance_Expr (e : expr) : isinstance e cls_Expr = true.
Proof.
  unfold isinstance. apply bool_decide_eq_true_2.
  destruct e; simpl; repeat first [ apply list_elem_of_here | apply list_elem_of_further ].
Qed.

Lemma existsb_isinstance_Expr (l : list expr) :
  existsb (fun element => isinstance element cls_Expr) l = negb (bool_decide (l = [])).
Proof. destruct l as [|e l]; [reflexivity|]. simpl. rewrite isinstance_Expr. reflexivity. Qed.

Lemma filter_isinstance_Expr (l : list expr) :
  List.filter (fun element => isinstance element cls_Expr) l = l.
Proof.
  induction l as [|e l IH]; [reflexivity|]. simpl. rewrite isinstance_Expr, IH. reflexivity.
Qed.

(** ** Qubits *)

Lemma size_list_to_set_le (qs : list Z) :
  (size (list_to_set qs : gset Z) <= length qs)%nat.
Proof.
  induction qs as [|q qs IH].
  - rewrite list_to_set_nil, size_empty. simpl. lia.
  - rewrite list_to_set_cons, size_union_alt, size_singleton. simpl.
    assert (Hs : (list_to_set qs ∖ {[q]} : gset Z) ⊆ list_to_set qs) by set_solver.
    apply subseteq_size in Hs. lia.
Qed.

Lemma are_qubits_unique_NoDup (qs : list Z) :
  are_qubits_unique qs = true <-> NoDup qs.
Proof.
  unfold are_qubits_unique. rewrite bool_decide_eq_true. split.
  - induction qs as [|q qs IH]; intros Hlen; [constructor|].
    rewrite list_to_set_cons, size_union_alt, size_singleton in Hlen. simpl in Hlen.
    pose proof (size_list_to_set_le qs) as Hle.
    assert (Hs : (list_to_set qs ∖ {[q]} : gset Z) ⊆ list_to_set qs) by set_solver.
    apply subseteq_size in Hs.
    assert (Heq : size (list_to_set qs ∖ {[q]} : gset Z) = size (list_to_set qs : gset Z)) by lia.
    constructor.
    + intros Hin.
      assert (Hq : q ∈ (list_to_set qs : gset Z)) by (apply elem_of_list_to_set; exact Hin).
      assert (Hlt : (list_to_set qs ∖ {[q]} : gset Z) ⊂ list_to_set qs) by set_solver.
      apply subset_size in Hlt. lia.
    + apply IH. lia.
  - intros Hnd. symmetry. apply size_list_to_set. exact Hnd.
Qed.

(** ** The monad *)

Lemma bind_ok {A B} (c : M A) (k : A -> M B) (s s' : state) (a : A) :
  c s = (Ok a, s') -> bind c k s = k a s'.
Proof. intros H. unfold bind. rewrite H. reflexivity. Qed.

Lemma bind_raise {A B} (c : M A) (k : A -> M B) (s s' : state) (e : exn) :
  c s = (Raise e, s') -> bind c k s = (Raise e, s').
Proof. intros H. unfold bind. rewrite H. reflexivity. Qed.

Lemma state_eta (s : state) : {| heap := heap s; warnings := warnings s |} = s.
Proof. destruct s. reflexivity. Qed.

Lemma insert_last {A} (h : list A) (x y : A) :
  <[length h := x]> (h ++ [y]) = h ++ [x].
Proof. induction h as [|a h IH]; simpl; [reflexivity|]. rewrite IH. reflexivity. Qed.

Lemma read_matrix_ok (s : state) (l : loc) (m : Matrix) :
  heap s !! l = Some (MatrixObj m) -> read_matrix l s = (Ok m, s).
Proof. intros H. unfold read_matrix. rewrite H. reflexivity. Qed.

Lemma read_gate_ok (s : state) (attr : string) (l : loc) (g : Gate) :
  heap s !! l = Some (GateObj g) -> read_gate attr (PyRef l) s = (Ok g, s).
Proof. intros H. unfold read_gate. rewrite H. reflexivity. Qed.

(** The loop [for index, element in enumerate(matrix): matrix[index] = ...]
    replaces every entry by its image, in place. *)
Lemma for_each_element_from (ml : loc) (f : expr -> result expr) (g : expr -> expr)
    (r c : nat) (todo done : list expr) (s : state) :
  heap s !! ml = Some (MatrixObj {| rows := r; cols := c; entries := done ++ todo |}) ->
  (forall e, e ∈ todo -> f e = Ok (g e)) ->
  for_each_element ml f (seq (length done) (length todo)) s =
    (Ok tt,
     {| heap := <[ml := MatrixObj {| rows := r; cols := c;
                                     entries := done ++ map g todo |}]> (heap s);
        warnings := warnings s |}).
Proof.
  revert done s. induction todo as [|e todo IH]; intros done s Hml Hf; simpl.
  - unfold ret. rewrite list_insert_id by exact Hml. rewrite state_eta. reflexivity.
  - rewrite (bind_ok _ _ _ _ _ (read_matrix_ok _ _ _ Hml)). simpl.
    rewrite list_lookup_middle by reflexivity.
    unfold lift at 1. unfold bind at 1. rewrite Hf by apply list_elem_of_here.
    unfold store at 1. unfold bind at 1.
    unfold setitem. simpl.
    replace (<[length done := g e]> (done ++ e :: todo))
      with ((done ++ [g e]) ++ todo).
    2:{ rewrite <- (Nat.add_0_r (length done)), insert_app_r. simpl.
        rewrite <- app_assoc. reflexivity. }
    replace (S (length done)) with (length (done ++ [g e]))
      by (rewrite length_app; simpl; lia).
    rewrite IH.
    + simpl. rewrite list_insert_insert_eq, <- app_assoc. reflexivity.
    + simpl. apply list_lookup_insert_eq. eapply lookup_lt_Some. exact Hml.
    + intros e' He'. apply Hf. apply list_elem_of_further. exact He'.
Qed.

Lemma for_each_element_map (ml : loc) (f : expr -> result expr) (g : expr -> expr)
    (m : Matrix) (s : state) :
  heap s !! ml = Some (MatrixObj m) ->
  (forall e, e ∈ entries m -> f e = Ok (g e)) ->
  for_each_element ml f (seq 0 (length (entries m))) s =
    (Ok tt,
     {| heap := <[ml := MatrixObj {| rows := rows m; cols := cols m;
                                     entries := map g (entries m) |}]> (heap s);
        warnings := warnings s |}).
Proof.
  intros Hml Hf. destruct m as [r c es]. simpl in *.
  exact (for_each_element_from ml f g r c es [] s Hml Hf).
Qed.

(** ** The constructor of CustomGate *)

Section construction.
Context {L : SympyLib}.

Lemma is_valid_operator_shape (m : Matrix) (qs : list Z) :
  is_valid_operator m qs = true <-> shape m = (2 ^ length qs, 2 ^ length qs)%nat.
Proof. unfold is_valid_operator. apply bool_decide_eq_true. Qed.

(** A valid call allocates the evaluated copy of the matrix, then the gate. *)
Lemma CustomGate_ok (s : state) (matrix_arg : loc) (m : Matrix) (qs : list Z) :
  heap s !! matrix_arg = Some (MatrixObj m) ->
  is_valid_operator m qs = true ->
  are_qubits_unique qs = true ->
  CustomGate matrix_arg qs s =
    (Ok (S (length (heap s))),
     {| heap := (heap s ++ [MatrixObj (Matrix_map evalf m)])
                ++ [GateObj {| gate_cls := CustomGate_cls; qubits := qs;
                               _matrix := Some (length (heap s)) |}];
        warnings := warnings s |}).
Proof.
  intros Hm Hvalid Hunique. unfold CustomGate.
  rewrite (bind_ok _ _ _ _ _ (read_matrix_ok _ _ _ Hm)).
  rewrite Hvalid, Hunique. simpl.
  unfold deepcopy_matrix.
  erewrite bind_ok; cycle 1.
  { erewrite bind_ok by (apply read_matrix_ok; exact Hm). reflexivity. }
  erewrite bind_ok; cycle 1.
  { apply (for_each_element_map _ _ evalf m).
    - simpl. apply list_lookup_middle. reflexivity.
    - reflexivity. }
  unfold alloc. simpl.
  rewrite insert_last, length_app. simpl.
  replace (length (heap s) + 1)%nat with (S (length (heap s))) by lia.
  reflexivity.
Qed.

Lemma CustomGate_invalid_shape (s : state) (matrix_arg : loc) (m : Matrix) (qs : list Z) :
  heap s !! matrix_arg = Some (MatrixObj m) ->
  is_valid_operator m qs = false ->
  CustomGate matrix_arg qs s =
    (Raise (ValueError (InvalidShape (shape m) (length qs))), s).
Proof.
  intros Hm Hvalid. unfold CustomGate.
  rewrite (bind_ok _ _ _ _ _ (read_matrix_ok _ _ _ Hm)).
  rewrite Hvalid. reflexivity.
Qed.

Lemma CustomGate_repeated_qubit (s : state) (matrix_arg : loc) (m : Matrix) (qs : list Z) :
  heap s !! matrix_arg = Some (MatrixObj m) ->
  are_qubits_unique qs = false ->
  exists msg, CustomGate matrix_arg qs s = (Raise (ValueError msg), s).
Proof.
  intros Hm Hunique. unfold CustomGate.
  rewrite (bind_ok _ _ _ _ _ (read_matrix_ok _ _ _ Hm)).
  destruct (is_valid_operator m qs); simpl.
  - rewrite Hunique. simpl. eexists. reflexivity.
  - eexists. reflexivity.
Qed.

(** C4.  Given a matrix and a tuple of qubits, the constructor of
    CustomGate succeeds when the matrix is square of side
    [2 ^ len(qubits)] and the qubits are pairwise distinct: it returns a
    new gate with these qubits whose matrix is a new object of the same
    shape holding the evaluated entries, and it leaves every object that
    existed, and the warnings, as they were.  For a matrix of any other
    shape it raises the ValueError that reports this shape and the number
    of qubits, and for a tuple with a repeated qubit it raises a
    ValueError whatever the matrix holds; in both cases nothing is
    allocated. *)
Theorem CustomGate_construction (s : state) (matrix_arg : loc) (m : Matrix)
    (qs : list Z) :
  heap s !! matrix_arg = Some (MatrixObj m) ->
  (shape m = (2 ^ length qs, 2 ^ length qs)%nat -> NoDup qs ->
     exists self ml s',
       CustomGate matrix_arg qs s = (Ok self, s') /\
       heap s' !! self = Some (GateObj {| gate_cls := CustomGate_cls; qubits := qs;
                                          _matrix := Some ml |}) /\
       heap s' !! ml = Some (MatrixObj (Matrix_map evalf m)) /\
       heap s !! self = None /\ heap s !! ml = None /\
       (forall l o, heap s !! l = Some o -> heap s' !! l = Some o) /\
       warnings s' = warnings s) /\
  (shape m <> (2 ^ length qs, 2 ^ length qs)%nat ->
     CustomGate matrix_arg qs s =
       (Raise (ValueError (InvalidShape (shape m) (length qs))), s)) /\
  (~ NoDup qs ->
     exists msg, CustomGate matrix_arg qs s = (Raise (ValueError msg), s)).
Proof.
  intros Hm. split; [|split].
  - intros Hshape Hnd.
    exists (S (length (heap s))), (length (heap s)). eexists.
    split; [apply (CustomGate_ok s matrix_arg m qs Hm)|].
    + apply is_valid_operator_shape. exact Hshape.
    + apply are_qubits_unique_NoDup. exact Hnd.
    + simpl. repeat split.
      * apply list_lookup_middle. rewrite length_app. simpl. lia.
      * apply lookup_app_l_Some. apply list_lookup_middle. reflexivity.
      * apply lookup_ge_None. lia.
      * apply lookup_ge_None. lia.
      * intros l o Hl. do 2 apply lookup_app_l_Some. exact Hl.
  - intros Hshape. apply (CustomGate_invalid_shape s matrix_arg m qs Hm).
    apply not_true_is_false. rewrite is_valid_operator_shape. exact Hshape.
  - intros Hnd. apply (CustomGate_repeated_qubit s matrix_arg m qs Hm).
    apply not_true_is_false. rewrite are_qubits_unique_NoDup. exact Hnd.
Qed.

End construction.

(** ** Gates in the store *)

Lemma gate_stored_at (s : state) (self : loc) (g : Gate) (ml : loc) (m : Matrix) :
  gate_stored s self g ml m -> gate_at s self g m.
Proof. intros (Hg & Hc & Hm). split; [exact Hg|]. rewrite Hc. exact Hm. Qed.

Lemma gate_at_kept (x : loc) (gx : Gate) (s s' : state) (b : loc) (gb : Gate) (m : Matrix) :
  others_kept x s s' -> heap s !! x = Some (GateObj gx) -> b <> x ->
  gate_at s b gb m -> gate_at s' b gb m.
Proof.
  intros Hkept Hx Hbx [Hb Hm]. split.
  - apply Hkept; assumption.
  - destruct (_matrix gb) as [ml|]; [|exact Hm].
    apply Hkept; [|exact Hm]. intros ->. rewrite Hx in Hm. discriminate.
Qed.

Lemma gate_stored_kept (x : loc) (gx : Gate) (s s' : state) (b : loc) (gb : Gate)
    (ml : loc) (m : Matrix) :
  others_kept x s s' -> heap s !! x = Some (GateObj gx) -> b <> x ->
  gate_stored s b gb ml m -> gate_stored s' b gb ml m.
Proof.
  intros Hkept Hx Hbx (Hb & Hc & Hm). repeat split.
  - apply Hkept; assumption.
  - exact Hc.
  - apply Hkept; [|exact Hm]. intros ->. rewrite Hx in Hm. discriminate.
Qed.

Lemma matrix_stored (s : state) (self : loc) (g : Gate) (ml : loc) (m : Matrix) :
  gate_stored s self g ml m -> matrix (PyRef self) s = (Ok ml, s).
Proof.
  intros (Hg & Hc & Hm). unfold matrix.
  rewrite (bind_ok _ _ _ _ _ (read_gate_ok _ _ _ _ Hg)). rewrite Hc. reflexivity.
Qed.

(** The first access to [matrix] stores the created matrix; later ones, and
    every access on a custom gate, change nothing. *)
Lemma matrix_forced (s : state) (self : loc) (g : Gate) (m : Matrix) :
  gate_at s self g m ->
  exists ml g' s',
    matrix (PyRef self) s = (Ok ml, s') /\
    gate_stored s' self g' ml m /\
    qubits g' = qubits g /\ gate_cls g' = gate_cls g /\
    others_kept self s s' /\ warnings s' = warnings s /\
    (length (heap s) <= length (heap s'))%nat /\
    (is_Some (_matrix g) -> s' = s /\ g' = g).
Proof.
  intros [Hg Hm]. destruct (_matrix g) as [ml|] eqn:Hc.
  - exists ml, g, s. split; [|repeat split; auto].
    + apply (matrix_stored s self g ml m). repeat split; assumption.
    + intros l o _ Hl. exact Hl.
  - exists (length (heap s)).
    exists {| gate_cls := SpecializedGate_cls m; qubits := qubits g;
              _matrix := Some (length (heap s)) |}.
    eexists. split.
    { unfold matrix. rewrite (bind_ok _ _ _ _ _ (read_gate_ok _ _ _ _ Hg)).
      rewrite Hc, Hm. reflexivity. }
    assert (Hlt : (self < length (heap s))%nat) by (eapply lookup_lt_Some; exact Hg).
    unfold gate_stored, others_kept. cbn [heap warnings _matrix qubits gate_cls].
    split_and!.
    + apply list_lookup_insert_eq. rewrite length_app. lia.
    + reflexivity.
    + rewrite list_lookup_insert_ne by lia. apply list_lookup_middle. reflexivity.
    + reflexivity.
    + symmetry. exact Hm.
    + intros l o Hne Hl. rewrite list_lookup_insert_ne by congruence.
      apply lookup_app_l_Some. exact Hl.
    + reflexivity.
    + rewrite length_insert, length_app. lia.
    + intros [x Hx]. discriminate.
Qed.

Lemma get_qubits_ok (s : state) (self : loc) (g : Gate) :
  heap s !! self = Some (GateObj g) -> get_qubits (PyRef self) s = (Ok (qubits g), s).
Proof.
  intros Hg. unfold get_qubits.
  rewrite (bind_ok _ _ _ _ _ (read_gate_ok _ _ _ _ Hg)). reflexivity.
Qed.

Lemma matrix_elements_stored (s : state) (self : loc) (g : Gate) (ml : loc) (m : Matrix) :
  gate_stored s self g ml m -> matrix_elements (PyRef self) s = (Ok (entries m), s).
Proof.
  intros H. unfold matrix_elements.
  rewrite (bind_ok _ _ _ _ _ (matrix_stored _ _ _ _ _ H)).
  destruct H as (_ & _ & Hm).
  rewrite (bind_ok _ _ _ _ _ (read_matrix_ok _ _ _ Hm)). reflexivity.
Qed.

Lemma symbolic_params_stored (s : state) (self : loc) (g : Gate) (ml : loc) (m : Matrix) :
  gate_stored s self g ml m -> symbolic_params (PyRef self) s = (Ok (params_of m), s).
Proof.
  intros H. unfold symbolic_params.
  rewrite (bind_ok _ _ _ _ _ (matrix_elements_stored _ _ _ _ _ H)).
  unfold ret, params_of. rewrite filter_isinstance_Expr. reflexivity.
Qed.

Lemma is_parameterized_stored (s : state) (self : loc) (g : Gate) (ml : loc) (m : Matrix) :
  gate_stored s self g ml m ->
  is_parameterized (PyRef self) s = (Ok (negb (bool_decide (entries m = []))), s).
Proof.
  intros H. unfold is_parameterized.
  rewrite (bind_ok _ _ _ _ _ (matrix_elements_stored _ _ _ _ _ H)).
  unfold ret. rewrite existsb_isinstance_Expr. reflexivity.
Qed.

(** A loop of [any] whose tests leave the state alone. *)
Lemma any_pure {A} (p : A -> M bool) (q : A -> bool) (l : list A) (s : state) :
  (forall x, x ∈ l -> p x s = (Ok (q x), s)) ->
  any p l s = (Ok (existsb q l), s).
Proof.
  induction l as [|x l IH]; intros Hp; simpl; [reflexivity|].
  rewrite (bind_ok _ _ _ _ _ (Hp x (list_elem_of_here _ _))).
  destruct (q x); [reflexivity|]. simpl. apply IH.
  intros y Hy. apply Hp. apply list_elem_of_further. exact Hy.
Qed.

(** ** Comparing elements and gates *)

Section equality.
Context {L : SympyLib}.

Lemma are_elements_equal_refl (e : expr) : are_elements_equal e e = Ok true.
Proof. unfold are_elements_equal. rewrite expr_eqb_refl. reflexivity. Qed.

(** C2, at the failing input.  [are_elements_equal] tests twice that
    [another_element] is numeric-like and never that [element] is: with a
    symbol on the left and an integer on the right it goes on to convert
    the symbol to a complex number, and raises TypeError where it should
    return False. *)
Theorem are_elements_equal_symbol_integer (name : string) (z : Z) :
  are_elements_equal (Symbol name) (Integer z) = Raise TypeError.
Proof.
  unfold are_elements_equal. simpl. rewrite complex_of_Symbol. reflexivity.
Qed.

Lemma get_qubits_missing (s : state) (v : pyval) :
  hasattr_qubits s v = false ->
  get_qubits v s = (Raise (AttributeError "qubits"), s).
Proof.
  unfold hasattr_qubits, get_qubits, bind, read_gate. intros H.
  destruct v as [| |l]; try reflexivity.
  destruct (heap s !! l) as [[|]|]; try reflexivity. discriminate.
Qed.

(** C10.  For a gate [self] and an operand that has no attribute
    [qubits] (None, an integer, anything that is not a gate),
    [self == x] raises AttributeError for [qubits] instead of returning
    False, and changes nothing. *)
Theorem eq_raises_without_qubits (s : state) (self : loc) (g : Gate) (x : pyval) :
  heap s !! self = Some (GateObj g) ->
  hasattr_qubits s x = false ->
  __eq__ (PyRef self) x s = (Raise (AttributeError "qubits"), s).
Proof.
  intros Hg Hx. unfold __eq__.
  rewrite (bind_ok _ _ _ _ _ (get_qubits_ok _ _ _ Hg)).
  apply bind_raise. apply get_qubits_missing. exact Hx.
Qed.

Lemma zip_same_no_mismatch (qs : list Z) :
  existsb (fun p : Z * Z => negb (bool_decide (p.1 = p.2))) (zip qs qs) = false.
Proof.
  induction qs as [|q qs IH]; [reflexivity|]. simpl.
  rewrite bool_decide_eq_true_2 by reflexivity. exact IH.
Qed.

Lemma any_differ_same (es : list expr) (s : state) :
  any (fun p : expr * expr => r <- lift (are_elements_equal p.1 p.2) ;; ret (negb r))
      (zip es es) s = (Ok false, s).
Proof.
  induction es as [|e es IH]; [reflexivity|]. simpl.
  unfold bind at 1. unfold bind at 1. unfold lift.
  rewrite are_elements_equal_refl. simpl. exact IH.
Qed.

(** Two gates with the same qubits whose matrices hold the same entries
    compare equal, whether they are one object or two. *)
Lemma eq_same_content (s : state) (a b : loc) (ga gb : Gate) (m : Matrix) :
  gate_at s a ga m -> gate_at s b gb m -> qubits ga = qubits gb ->
  exists s', __eq__ (PyRef a) (PyRef b) s = (Ok true, s') /\
             warnings s' = warnings s /\
             (forall l o, l <> a -> l <> b -> heap s !! l = Some o ->
                          heap s' !! l = Some o).
Proof.
  intros Ha Hb Hq.
  assert (Hga : heap s !! a = Some (GateObj ga)) by apply Ha.
  assert (Hgb : heap s !! b = Some (GateObj gb)) by apply Hb.
  destruct (matrix_forced s a ga m Ha)
    as (mla & ga' & s1 & Hrun1 & Hsa & Hqa & _ & Hkept1 & Hw1 & _ & Hsame1).
  (* the second gate after the first access *)
  assert (Hb1 : exists gb1, gate_at s1 b gb1 m /\ qubits gb1 = qubits gb).
  { destruct (decide (b = a)) as [->|Hne].
    - exists ga'. split; [eapply gate_stored_at; exact Hsa|].
      rewrite Hga in Hgb. injection Hgb as <-. exact Hqa.
    - exists gb. split; [|reflexivity].
      eapply gate_at_kept; eauto. }
  destruct Hb1 as (gb1 & Hb1 & Hqb1).
  destruct (matrix_forced s1 b gb1 m Hb1)
    as (mlb & gb' & s2 & Hrun2 & Hsb & Hqb & _ & Hkept2 & Hw2 & _ & Hsame2).
  (* the first gate after the second access *)
  assert (Hsa2 : exists ga2, gate_stored s2 a ga2 mla m).
  { destruct (decide (a = b)) as [->|Hne].
    - destruct Hsa as (Hx & Hy & Hz). destruct Hb1 as [Hb1 _].
      rewrite Hx in Hb1. injection Hb1 as <-.
      destruct Hsame2 as [-> ->]; [rewrite Hy; eauto|].
      exists ga'. repeat split; assumption.
    - exists ga'. eapply gate_stored_kept; eauto. }
  destruct Hsa2 as (ga2 & Hsa2).
  exists s2. split; [|split].
  - unfold __eq__.
    rewrite (bind_ok _ _ _ _ _ (get_qubits_ok _ _ _ Hga)).
    rewrite (bind_ok _ _ _ _ _ (get_qubits_ok _ _ _ Hgb)).
    rewrite Hq, bool_decide_eq_true_2 by reflexivity. simpl.
    rewrite zip_same_no_mismatch.
    rewrite (bind_ok _ _ _ _ _ Hrun1).
    rewrite (bind_ok _ _ _ _ _ (read_matrix_ok _ _ _ (proj2 (proj2 Hsa)))).
    rewrite (bind_ok _ _ _ _ _ Hrun2).
    rewrite (bind_ok _ _ _ _ _ (read_matrix_ok _ _ _ (proj2 (proj2 Hsb)))).
    rewrite bool_decide_eq_true_2 by reflexivity. simpl.
    rewrite (bind_ok _ _ _ _ _ (symbolic_params_stored _ _ _ _ _ Hsa2)).
    rewrite (bind_ok _ _ _ _ _ (symbolic_params_stored _ _ _ _ _ Hsb)).
    rewrite bool_decide_eq_true_2 by reflexivity. simpl.
    rewrite (bind_ok _ _ _ _ _ (matrix_elements_stored _ _ _ _ _ Hsa2)).
    rewrite (bind_ok _ _ _ _ _ (matrix_elements_stored _ _ _ _ _ Hsb)).
    rewrite (bind_ok _ _ _ _ _ (any_differ_same _ _)). reflexivity.
  - congruence.
  - intros l o Hla Hlb Hl. apply Hkept2; [exact Hlb|]. apply Hkept1; assumption.
Qed.

Lemma any_differ_run (pairs : list (expr * expr)) (s : state) :
  any (fun p : expr * expr => r <- lift (are_elements_equal p.1 p.2) ;; ret (negb r))
      pairs s = (any_differ pairs, s).
Proof.
  induction pairs as [|p rest IH]; [reflexivity|]. simpl.
  unfold bind at 1. unfold bind at 1. unfold lift.
  destruct (are_elements_equal p.1 p.2) as [[|]|e]; simpl; auto.
Qed.

Lemma eq_stored (s : state) (a b : loc) (ga gb : Gate) (mla mlb : loc)
    (ma mb : Matrix) :
  gate_stored s a ga mla ma -> gate_stored s b gb mlb mb ->
  __eq__ (PyRef a) (PyRef b) s =
    (compare_contents (qubits ga) (qubits gb) ma mb, s).
Proof.
  intros Ha Hb. unfold __eq__, compare_contents.
  rewrite (bind_ok _ _ _ _ _ (get_qubits_ok _ _ _ (proj1 Ha))).
  rewrite (bind_ok _ _ _ _ _ (get_qubits_ok _ _ _ (proj1 Hb))).
  destruct (negb (bool_decide (length (qubits ga) = length (qubits gb))));
    [reflexivity|].
  destruct (existsb _ (zip (qubits ga) (qubits gb))); [reflexivity|].
  rewrite (bind_ok _ _ _ _ _ (matrix_stored _ _ _ _ _ Ha)).
  rewrite (bind_ok _ _ _ _ _ (read_matrix_ok _ _ _ (proj2 (proj2 Ha)))).
  rewrite (bind_ok _ _ _ _ _ (matrix_stored _ _ _ _ _ Hb)).
  rewrite (bind_ok _ _ _ _ _ (read_matrix_ok _ _ _ (proj2 (proj2 Hb)))).
  destruct (negb (bool_decide (Matrix_len ma = Matrix_len mb))); [reflexivity|].
  rewrite (bind_ok _ _ _ _ _ (symbolic_params_stored _ _ _ _ _ Ha)).
  rewrite (bind_ok _ _ _ _ _ (symbolic_params_stored _ _ _ _ _ Hb)).
  destruct (negb (bool_decide (params_of ma = params_of mb))); [reflexivity|].
  rewrite (bind_ok _ _ _ _ _ (matrix_elements_stored _ _ _ _ _ Ha)).
  rewrite (bind_ok _ _ _ _ _ (matrix_elements_stored _ _ _ _ _ Hb)).
  unfold bind. rewrite any_differ_run.
  destruct (any_differ (zip (entries ma) (entries mb))) as [[|]|e]; reflexivity.
Qed.

(** The two tests [==] makes on the qubits pass exactly for equal tuples. *)
Lemma qubits_compared (qs qs' : list Z) :
  negb (bool_decide (length qs = length qs'))
  || existsb (fun p : Z * Z => negb (bool_decide (p.1 = p.2))) (zip qs qs') = false
  <-> qs = qs'.
Proof.
  split.
  - revert qs'. induction qs as [|q qs IH]; intros [|q' qs']; simpl; try discriminate.
    + reflexivity.
    + destruct (bool_decide (length qs = length qs')) eqn:Hlen.
      * rewrite bool_decide_eq_true in Hlen. rewrite !bool_decide_eq_true_2 by congruence.
        simpl. destruct (bool_decide (q = q')) eqn:Hq; simpl; [|discriminate].
        rewrite bool_decide_eq_true in Hq. intros H. f_equal; [exact Hq|].
        apply IH. rewrite bool_decide_eq_true_2 by exact Hlen. exact H.
      * rewrite bool_decide_eq_false in Hlen. rewrite bool_decide_eq_false_2 by congruence.
        discriminate.
  - intros <-. rewrite bool_decide_eq_true_2 by reflexivity. simpl.
    apply zip_same_no_mismatch.
Qed.

Lemma any_differ_false_iff (pairs : list (expr * expr)) :
  any_differ pairs = Ok false <->
  Forall (fun p => are_elements_equal p.1 p.2 = Ok true) pairs.
Proof.
  induction pairs as [|p rest IH]; simpl.
  - split; [constructor | reflexivity].
  - rewrite Forall_cons. destruct (are_elements_equal p.1 p.2) as [[|]|e].
    + rewrite IH. tauto.
    + split; [discriminate | intros [H _]; discriminate].
    + split; [discriminate | intros [H _]; discriminate].
Qed.

Lemma any_differ_raise_iff (pairs : list (expr * expr)) (e : exn) :
  any_differ pairs = Raise e <->
  exists i p, pairs !! i = Some p /\ are_elements_equal p.1 p.2 = Raise e /\
              Forall (fun q => are_elements_equal q.1 q.2 = Ok true) (take i pairs).
Proof.
  induction pairs as [|p rest IH]; simpl.
  - split; [discriminate | intros (i & p & H & _); discriminate].
  - destruct (are_elements_equal p.1 p.2) as [[|]|e'] eqn:Hp.
    + rewrite IH. split.
      * intros (i & q & Hi & Hq & Hbefore). exists (S i), q. simpl.
        split_and!; [exact Hi | exact Hq |]. constructor; assumption.
      * intros ([|i] & q & Hi & Hq & Hbefore); simpl in Hi, Hbefore.
        -- injection Hi as <-. congruence.
        -- exists i, q. split_and!; [exact Hi | exact Hq |].
           apply Forall_cons in Hbefore. apply Hbefore.
    + split; [discriminate|].
      intros ([|i] & q & Hi & Hq & Hbefore); simpl in Hi, Hbefore.
      * injection Hi as <-. congruence.
      * apply Forall_cons in Hbefore. destruct Hbefore as [H _]. congruence.
    + split.
      * intros H. exists 0%nat, p. simpl. split_and!; [reflexivity | congruence | constructor].
      * intros ([|i] & q & Hi & Hq & Hbefore); simpl in Hi, Hbefore.
        -- injection Hi as <-. congruence.
        -- apply Forall_cons in Hbefore. destruct Hbefore as [H _]. congruence.
Qed.

Lemma compare_contents_true_iff (qs qs' : list Z) (m m' : Matrix) :
  compare_contents qs qs' m m' = Ok true <->
  qs = qs' /\ Matrix_len m = Matrix_len m' /\ params_of m = params_of m' /\
  Forall (fun p => are_elements_equal p.1 p.2 = Ok true) (zip (entries m) (entries m')).
Proof.
  rewrite <- any_differ_false_iff, <- qubits_compared. unfold compare_contents.
  destruct (negb (bool_decide (length qs = length qs'))); cbn [orb].
  { split; [discriminate | intros [H _]; discriminate]. }
  destruct (existsb _ (zip qs qs')).
  { split; [discriminate | intros [H _]; discriminate]. }
  destruct (bool_decide (Matrix_len m = Matrix_len m')) eqn:Hlen; cbn [negb].
  2:{ rewrite bool_decide_eq_false in Hlen. split; [discriminate | tauto]. }
  rewrite bool_decide_eq_true in Hlen.
  destruct (bool_decide (params_of m = params_of m')) eqn:Hp; cbn [negb].
  2:{ rewrite bool_decide_eq_false in Hp. split; [discriminate | tauto]. }
  rewrite bool_decide_eq_true in Hp.
  destruct (any_differ (zip (entries m) (entries m'))) as [[|]|e].
  - split; [discriminate | intros (_ & _ & _ & H); discriminate].
  - split; [intros _; split_and!; auto | reflexivity].
  - split; [discriminate | intros (_ & _ & _ & H); discriminate].
Qed.

Lemma compare_contents_raise_iff (qs qs' : list Z) (m m' : Matrix) (e : exn) :
  compare_contents qs qs' m m' = Raise e <->
  qs = qs' /\ Matrix_len m = Matrix_len m' /\ params_of m = params_of m' /\
  any_differ (zip (entries m) (entries m')) = Raise e.
Proof.
  rewrite <- qubits_compared. unfold compare_contents.
  destruct (negb (bool_decide (length qs = length qs'))); cbn [orb].
  { split; [discriminate | intros [H _]; discriminate]. }
  destruct (existsb _ (zip qs qs')).
  { split; [discriminate | intros [H _]; discriminate]. }
  destruct (bool_decide (Matrix_len m = Matrix_len m')) eqn:Hlen; cbn [negb].
  2:{ rewrite bool_decide_eq_false in Hlen. split; [discriminate | tauto]. }
  rewrite bool_decide_eq_true in Hlen.
  destruct (bool_decide (params_of m = params_of m')) eqn:Hp; cbn [negb].
  2:{ rewrite bool_decide_eq_false in Hp. split; [discriminate | tauto]. }
  rewrite bool_decide_eq_true in Hp.
  destruct (any_differ (zip (entries m) (entries m'))) as [d|e'].
  - split; [discriminate | intros (_ & _ & _ & H); discriminate].
  - split; [intros H; split_and!; auto; congruence | intros (_ & _ & _ & H); congruence].
Qed.


(** The closeness of two real numbers: the absolute value of a complex
    double without imaginary part is that of its real part. *)
Lemma allclose_real (f f' : float) :
  float_isfinite f = true -> float_isfinite f' = true ->
  allclose (f, 0%float) (f', 0%float)
  = PrimFloat.leb (PrimFloat.abs (f - f')) (atol + rtol * PrimFloat.abs f')%float.
Proof.
  intros Hf Hf'. unfold allclose, isfinite, within_tol, cabs, csub. cbn [fst snd].
  rewrite Hf, Hf'. change (float_isfinite 0) with true. cbn [andb].
  change (0 - 0)%float with 0%float. rewrite !hypot_zero. reflexivity.
Qed.

(** Two floats that differ are compared within numpy's tolerance. *)
Lemma are_elements_equal_Float (f f' : float) :
  float_isfinite f = true -> float_isfinite f' = true ->
  are_elements_equal (Float f) (Float f') =
    Ok (PrimFloat.Leibniz.eqb f f' || allclose (f, 0%float) (f', 0%float)).
Proof.
  intros Hf Hf'. unfold are_elements_equal. simpl.
  destruct (PrimFloat.Leibniz.eqb f f'); [reflexivity|].
  rewrite !complex_of_Float by assumption. reflexivity.
Qed.

(** [copy.deepcopy] of a gate yields a new gate with the same qubits, the
    same class and the same matrix, and touches no object. *)
Lemma deepcopy_gate_spec (s : state) (self : loc) (g : Gate) (m : Matrix) :
  gate_at s self g m ->
  exists c gc s',
    deepcopy_gate self s = (Ok c, s') /\
    heap s !! c = None /\
    gate_at s' c gc m /\ gate_at s' self g m /\
    qubits gc = qubits g /\ gate_cls gc = gate_cls g /\
    warnings s' = warnings s /\
    (forall l o, heap s !! l = Some o -> heap s' !! l = Some o).
Proof.
  intros [Hg Hm]. unfold deepcopy_gate.
  rewrite (bind_ok _ _ _ _ _ (read_gate_ok _ _ _ _ Hg)).
  destruct (_matrix g) as [ml|] eqn:Hc.
  - exists (S (length (heap s))).
    exists {| gate_cls := gate_cls g; qubits := qubits g;
              _matrix := Some (length (heap s)) |}.
    eexists. split.
    { unfold deepcopy_matrix.
      erewrite bind_ok; cycle 1.
      { erewrite bind_ok by (apply read_matrix_ok; exact Hm). reflexivity. }
      unfold alloc. cbn [heap warnings]. rewrite length_app. simpl.
      replace (length (heap s) + 1)%nat with (S (length (heap s))) by lia.
      reflexivity. }
    unfold gate_at. cbn [heap warnings _matrix qubits gate_cls]. rewrite Hc.
    split_and!; try reflexivity.
    + apply lookup_ge_None. lia.
    + apply list_lookup_middle. rewrite length_app. simpl. lia.
    + apply lookup_app_l_Some. apply list_lookup_middle. reflexivity.
    + do 2 apply lookup_app_l_Some. exact Hg.
    + do 2 apply lookup_app_l_Some. exact Hm.
    + intros l o Hl. do 2 apply lookup_app_l_Some. exact Hl.
  - exists (length (heap s)), g. eexists. split; [reflexivity|].
    unfold gate_at. cbn [heap warnings]. rewrite Hc.
    split_and!; try reflexivity.
    + apply lookup_ge_None. lia.
    + apply list_lookup_middle. reflexivity.
    + exact Hm.
    + apply lookup_app_l_Some. exact Hg.
    + exact Hm.
    + intros l o Hl. apply lookup_app_l_Some. exact Hl.
Qed.

(** C8, as the code has it.  Gate equality is reflexive, and a gate and
    its deep copy compare equal in both orders.  Two gates with the same
    qubits whose matrices hold the same entries compare equal in both
    orders as well.  (Symmetry in general is not a property of [==]: the
    tolerance of the element comparison is relative to its right operand.) *)
Theorem eq_reflexive_and_deepcopy_invariant (s : state) (self : loc) (g : Gate)
    (m : Matrix) :
  gate_at s self g m ->
  (exists s', __eq__ (PyRef self) (PyRef self) s = (Ok true, s')) /\
  (exists c s1,
     deepcopy_gate self s = (Ok c, s1) /\ c <> self /\
     (exists s2, __eq__ (PyRef self) (PyRef c) s1 = (Ok true, s2)) /\
     (exists s2, __eq__ (PyRef c) (PyRef self) s1 = (Ok true, s2))) /\
  (forall other g', gate_at s other g' m -> qubits g' = qubits g ->
     (exists s', __eq__ (PyRef self) (PyRef other) s = (Ok true, s')) /\
     (exists s', __eq__ (PyRef other) (PyRef self) s = (Ok true, s'))).
Proof.
  intros Hself. split_and!.
  - destruct (eq_same_content s self self g g m Hself Hself eq_refl) as (s' & H & _).
    eauto.
  - destruct (deepcopy_gate_spec s self g m Hself)
      as (c & gc & s1 & Hrun & Hfresh & Hc & Hself1 & Hq & _).
    exists c, s1. split_and!.
    + exact Hrun.
    + intros ->. destruct Hself as [Hg _]. rewrite Hg in Hfresh. discriminate.
    + destruct (eq_same_content s1 self c g gc m Hself1 Hc (eq_sym Hq)) as (s2 & H & _).
      eauto.
    + destruct (eq_same_content s1 c self gc g m Hc Hself1 Hq) as (s2 & H & _).
      eauto.
  - intros other g' Hother Hq. split.
    + destruct (eq_same_content s self other g g' m Hself Hother (eq_sym Hq))
        as (s' & H & _). eauto.
    + destruct (eq_same_content s other self g' g m Hother Hself Hq)
        as (s' & H & _). eauto.
Qed.

End equality.

(** ** Gate.evaluate *)

Section evaluation.
Context {L : SympyLib}.

(** The loop body raises nothing: [complex] is only called on two numbers. *)
Lemma evaluate_element_ok (symbols_map : substitution) (element : expr) :
  evaluate_element symbols_map element = Ok (evaluated symbols_map element).
Proof.
  unfold evaluated, evaluate_element.
  destruct (isinstance (re (evalf (subs element symbols_map))) cls_Number) eqn:Hre;
    [|reflexivity].
  destruct (isinstance (im (evalf (subs element symbols_map))) cls_Number) eqn:Him;
    [|reflexivity].
  simpl.
  destruct (complex_of_Numbers _ _ 16 Hre Him) as [c Hc]. rewrite Hc. reflexivity.
Qed.

Lemma evaluate_matrix_run (s : state) (self : loc) (g : Gate) (ml : loc)
    (m : Matrix) (symbols_map : substitution) :
  gate_stored s self g ml m ->
  is_valid_operator m (qubits g) = true ->
  are_qubits_unique (qubits g) = true ->
  evaluate_matrix self symbols_map s =
    (Ok (S (S (length (heap s)))),
     {| heap := heap s ++
                [MatrixObj (Matrix_map (evaluated symbols_map) m);
                 MatrixObj (Matrix_map evalf (Matrix_map (evaluated symbols_map) m));
                 GateObj {| gate_cls := CustomGate_cls; qubits := qubits g;
                            _matrix := Some (S (length (heap s))) |}];
        warnings := warnings s |}).
Proof.
  intros Hs Hvalid Hunique. unfold evaluate_matrix.
  rewrite (bind_ok _ _ _ _ _ (matrix_stored _ _ _ _ _ Hs)).
  destruct Hs as (Hg & Hc & Hm).
  unfold deepcopy_matrix.
  erewrite bind_ok; cycle 1.
  { erewrite bind_ok by (apply read_matrix_ok; exact Hm). reflexivity. }
  erewrite bind_ok; cycle 1.
  { apply read_matrix_ok. cbn [heap]. apply list_lookup_middle. reflexivity. }
  erewrite bind_ok; cycle 1.
  { apply (for_each_element_map _ _ (evaluated symbols_map) m).
    - cbn [heap]. apply list_lookup_middle. reflexivity.
    - intros e _. apply evaluate_element_ok. }
  cbn [heap warnings]. rewrite insert_last.
  erewrite bind_ok; cycle 1.
  { apply get_qubits_ok. cbn [heap]. apply lookup_app_l_Some. exact Hg. }
  erewrite CustomGate_ok; cycle 1.
  { cbn [heap]. apply list_lookup_middle. reflexivity. }
  { exact Hvalid. }
  { exact Hunique. }
  cbn [heap warnings]. rewrite length_app. simpl.
  replace (length (heap s) + 1)%nat with (S (length (heap s))) by lia.
  rewrite <- !app_assoc. reflexivity.
Qed.

(** [evaluate] on a gate that meets the invariant of the data model: the
    matrix is forced, the warning about symbols is emitted or not, and
    three objects are allocated: the evaluated copy of the matrix, the
    copy the constructor makes of it, and the new gate. *)
Lemma evaluate_run (s : state) (self : loc) (g : Gate) (m : Matrix)
    (symbols_map : substitution) :
  gate_at s self g m ->
  entries m <> [] ->
  is_valid_operator m (qubits g) = true ->
  are_qubits_unique (qubits g) = true ->
  exists ml g1 s1,
    matrix (PyRef self) s = (Ok ml, s1) /\
    gate_stored s1 self g1 ml m /\
    qubits g1 = qubits g /\ gate_cls g1 = gate_cls g /\
    others_kept self s s1 /\
    (length (heap s) <= length (heap s1))%nat /\
    (is_Some (_matrix g) -> s1 = s /\ g1 = g) /\
    evaluate self symbols_map s =
      (Ok (S (S (length (heap s1)))),
       {| heap := heap s1 ++
                  [MatrixObj (Matrix_map (evaluated symbols_map) m);
                   MatrixObj (Matrix_map evalf (Matrix_map (evaluated symbols_map) m));
                   GateObj {| gate_cls := CustomGate_cls; qubits := qubits g;
                              _matrix := Some (S (length (heap s1))) |}];
          warnings := warnings s ++
                      mismatch_warnings (params_of m) (map fst symbols_map) |}).
Proof.
  intros Hat Hne Hvalid Hunique.
  destruct (matrix_forced s self g m Hat)
    as (ml & g1 & s1 & Hrun & Hs1 & Hq & Hcls & Hkept & Hw & Hlen & Hsame).
  exists ml, g1, s1. split_and!; try assumption.
  unfold evaluate.
  erewrite bind_ok; cycle 1.
  { unfold is_parameterized, matrix_elements.
    erewrite bind_ok; cycle 1.
    { rewrite (bind_ok _ _ _ _ _ Hrun).
      rewrite (bind_ok _ _ _ _ _ (read_matrix_ok _ _ _ (proj2 (proj2 Hs1)))).
      reflexivity. }
    reflexivity. }
  rewrite existsb_isinstance_Expr, bool_decide_eq_false_2 by exact Hne. simpl.
  erewrite bind_ok; cycle 1.
  { apply (any_pure _ (fun symbol => negb (key_in symbol (params_of m)))).
    intros symbol _.
    rewrite (bind_ok _ _ _ _ _ (symbolic_params_stored _ _ _ _ _ Hs1)). reflexivity. }
  unfold mismatch_warnings.
  destruct (existsb _ (map fst symbols_map)).
  - erewrite bind_ok; cycle 1.
    { rewrite (bind_ok _ _ _ _ _ (symbolic_params_stored _ _ _ _ _ Hs1)). reflexivity. }
    fold (evaluate_matrix self symbols_map).
    rewrite (evaluate_matrix_run _ self g1 ml m); rewrite ?Hq; try assumption.
    cbn [heap warnings]. rewrite Hw. reflexivity.
  - erewrite bind_ok by reflexivity.
    fold (evaluate_matrix self symbols_map).
    rewrite (evaluate_matrix_run _ self g1 ml m); rewrite ?Hq; try assumption.
    rewrite Hw, app_nil_r. reflexivity.
Qed.

Lemma valid_gate_entries (g : Gate) (m : Matrix) : valid_gate g m -> entries m <> [].
Proof.
  intros (Hshape & Hlen & _) Hnil. rewrite Hnil in Hlen. simpl in Hlen.
  unfold Matrix_len in Hlen. unfold shape in Hshape.
  injection Hshape as Hr Hc. rewrite Hr, Hc in Hlen.
  assert (Hpow : (2 ^ length (qubits g))%nat <> 0%nat) by (apply Nat.pow_nonzero; lia).
  nia.
Qed.

(** C5.  On a gate that meets the invariant of the data model, with any
    mapping, [evaluate] returns a gate that did not exist before the call:
    a CustomGate with the qubits of the source gate, whose matrix is a new
    object of the same shape.  The source gate keeps its qubits, its class
    and the matrix its property [matrix] stands for (a custom gate is the
    very same object as before; a specialized gate may now have its matrix
    stored), and every other object is as it was. *)
Theorem evaluate_returns_new_CustomGate (s : state) (self : loc) (g : Gate)
    (m : Matrix) (symbols_map : substitution) :
  gate_at s self g m -> valid_gate g m ->
  exists new ml' m' s',
    evaluate self symbols_map s = (Ok new, s') /\
    heap s !! new = None /\
    heap s' !! new = Some (GateObj {| gate_cls := CustomGate_cls;
                                      qubits := qubits g;
                                      _matrix := Some ml' |}) /\
    heap s !! ml' = None /\
    heap s' !! ml' = Some (MatrixObj m') /\ shape m' = shape m /\
    (exists g', gate_at s' self g' m /\ qubits g' = qubits g /\
                gate_cls g' = gate_cls g /\ (is_Some (_matrix g) -> g' = g)) /\
    others_kept self s s'.
Proof.
  intros Hat Hvalid.
  destruct (evaluate_run s self g m symbols_map Hat (valid_gate_entries g m Hvalid))
    as (ml & g1 & s1 & Hrun & Hs1 & Hq & Hcls & Hkept & Hlen & Hsame & Heval).
  { apply is_valid_operator_shape. apply Hvalid. }
  { apply are_qubits_unique_NoDup. apply Hvalid. }
  exists (S (S (length (heap s1)))), (S (length (heap s1))),
    (Matrix_map evalf (Matrix_map (evaluated symbols_map) m)).
  eexists. split; [exact Heval|]. cbn [heap]. split_and!.
  - apply lookup_ge_None. lia.
  - rewrite (lookup_app_r (heap s1)) by lia.
    replace (S (S (length (heap s1))) - length (heap s1))%nat with 2%nat by lia.
    reflexivity.
  - apply lookup_ge_None. lia.
  - rewrite (lookup_app_r (heap s1)) by lia.
    replace (S (length (heap s1)) - length (heap s1))%nat with 1%nat by lia.
    reflexivity.
  - reflexivity.
  - exists g1. split_and!; try assumption.
    + destruct Hs1 as (Hg1 & Hc1 & Hm1). split.
      * cbn [heap]. apply lookup_app_l_Some. exact Hg1.
      * rewrite Hc1. cbn [heap]. apply lookup_app_l_Some. exact Hm1.
    + intros Hsome. apply Hsame. exact Hsome.
  - intros l o Hne Hl. cbn [heap]. apply lookup_app_l_Some. apply Hkept; assumption.
Qed.

(** C3, on the code.  [is_parameterized] tests [isinstance(element,
    sympy.Expr)], which holds of every entry of a matrix, numbers
    included: on every gate that meets the invariant it returns True,
    whatever [symbolic_params] is, the empty set too. *)
Theorem is_parameterized_true (s : state) (self : loc) (g : Gate) (m : Matrix) :
  gate_at s self g m -> valid_gate g m ->
  exists s',
    is_parameterized (PyRef self) s = (Ok true, s') /\
    symbolic_params (PyRef self) s = (Ok (params_of m), s').
Proof.
  intros Hat Hvalid.
  destruct (matrix_forced s self g m Hat) as (ml & g1 & s1 & Hrun & Hs1 & _).
  exists s1.
  assert (Hel : matrix_elements (PyRef self) s = (Ok (entries m), s1)).
  { unfold matrix_elements. rewrite (bind_ok _ _ _ _ _ Hrun).
    rewrite (bind_ok _ _ _ _ _ (read_matrix_ok _ _ _ (proj2 (proj2 Hs1)))).
    reflexivity. }
  split.
  - unfold is_parameterized. rewrite (bind_ok _ _ _ _ _ Hel). unfold ret.
    rewrite existsb_isinstance_Expr, bool_decide_eq_false_2
      by (eapply valid_gate_entries; exact Hvalid).
    reflexivity.
  - unfold symbolic_params. rewrite (bind_ok _ _ _ _ _ Hel). unfold ret, params_of.
    rewrite filter_isinstance_Expr. reflexivity.
Qed.

Lemma key_in_empty (keys : list key) :
  existsb (fun symbol => negb (key_in symbol ∅)) keys = negb (bool_decide (keys = [])).
Proof.
  destruct keys as [|k keys]; [reflexivity|]. simpl.
  destruct k; simpl; [reflexivity|].
  rewrite bool_decide_eq_false_2 by set_solver. reflexivity.
Qed.

(** C7, on the code.  For a gate without free symbols [evaluate] never
    takes the branch that warns that the gate is not parameterized:
    [is_parameterized] is True.  It builds a new CustomGate, with no
    warning at all for an empty mapping and with the warning about
    symbols for any other mapping. *)
Theorem evaluate_numeric_gate_warnings (s : state) (self : loc) (g : Gate)
    (m : Matrix) (symbols_map : substitution) :
  gate_at s self g m -> valid_gate g m -> params_of m = ∅ ->
  exists new s',
    evaluate self symbols_map s = (Ok new, s') /\
    warnings s' =
      warnings s ++ (if bool_decide (symbols_map = []) then []
                     else [SymbolsMismatch ∅ (map fst symbols_map)]) /\
    NotParameterized ∉ drop (length (warnings s)) (warnings s').
Proof.
  intros Hat Hvalid Hparams.
  destruct (evaluate_run s self g m symbols_map Hat (valid_gate_entries g m Hvalid))
    as (ml & g1 & s1 & _ & _ & _ & _ & _ & _ & _ & Heval).
  { apply is_valid_operator_shape. apply Hvalid. }
  { apply are_qubits_unique_NoDup. apply Hvalid. }
  eexists _, _. split; [exact Heval|]. cbn [warnings].
  unfold mismatch_warnings. rewrite Hparams, key_in_empty.
  assert (Hnil : bool_decide (map fst symbols_map = []) = bool_decide (symbols_map = [])).
  { destruct symbols_map; reflexivity. }
  rewrite Hnil. split; [destruct (bool_decide (symbols_map = [])); reflexivity|].
  rewrite drop_app_length.
  destruct (bool_decide (symbols_map = [])); simpl; set_solver.
Qed.

(** C6, on the code.  The keys of the mapping are looked up in
    [symbolic_params], a set of sympy symbols: a key that is a string is
    never found there.  So a mapping with a string among its keys makes
    [evaluate] warn about symbols, also when every key names a symbol of
    the gate. *)
Theorem evaluate_string_key_warns (s : state) (self : loc) (g : Gate)
    (m : Matrix) (symbols_map : substitution) (name : string) :
  gate_at s self g m -> valid_gate g m ->
  KStr name ∈ map fst symbols_map ->
  exists new s',
    evaluate self symbols_map s = (Ok new, s') /\
    warnings s' =
      warnings s ++ [SymbolsMismatch (params_of m) (map fst symbols_map)].
Proof.
  intros Hat Hvalid Hkey.
  destruct (evaluate_run s self g m symbols_map Hat (valid_gate_entries g m Hvalid))
    as (ml & g1 & s1 & _ & _ & _ & _ & _ & _ & _ & Heval).
  { apply is_valid_operator_shape. apply Hvalid. }
  { apply are_qubits_unique_NoDup. apply Hvalid. }
  eexists _, _. split; [exact Heval|]. cbn [warnings].
  unfold mismatch_warnings.
  assert (Hex : existsb (fun symbol => negb (key_in symbol (params_of m)))
                        (map fst symbols_map) = true).
  { apply existsb_exists. exists (KStr name). split; [|reflexivity].
    apply list_elem_of_In. exact Hkey. }
  rewrite Hex. reflexivity.
Qed.

(** With sympy symbols as keys the test of [evaluate] is the intended one:
    the warning about symbols is emitted exactly when a key is not a symbol
    of the gate. *)
Lemma evaluate_symbol_keys_warning (s : state) (self : loc) (g : Gate)
    (m : Matrix) (symbols_map : substitution) :
  gate_at s self g m -> valid_gate g m ->
  (forall k, k ∈ map fst symbols_map -> exists name, k = KSym name) ->
  exists new s',
    evaluate self symbols_map s = (Ok new, s') /\
    ((forall name, KSym name ∈ map fst symbols_map -> name ∈ params_of m) ->
       warnings s' = warnings s) /\
    ((exists name, KSym name ∈ map fst symbols_map /\ name ∉ params_of m) ->
       warnings s' =
         warnings s ++ [SymbolsMismatch (params_of m) (map fst symbols_map)]).
Proof.
  intros Hat Hvalid Hkeys.
  destruct (evaluate_run s self g m symbols_map Hat (valid_gate_entries g m Hvalid))
    as (ml & g1 & s1 & _ & _ & _ & _ & _ & _ & _ & Heval).
  { apply is_valid_operator_shape. apply Hvalid. }
  { apply are_qubits_unique_NoDup. apply Hvalid. }
  eexists _, _. split; [exact Heval|]. cbn [warnings]. unfold mismatch_warnings.
  split.
  - intros Hall.
    assert (Hex : existsb (fun symbol => negb (key_in symbol (params_of m)))
                          (map fst symbols_map) = false).
    { apply not_true_is_false. intros Hex. apply existsb_exists in Hex as (k & Hk & Hneg).
      apply list_elem_of_In in Hk. destruct (Hkeys k Hk) as [name ->].
      simpl in Hneg. rewrite bool_decide_eq_true_2 in Hneg by (apply Hall; exact Hk).
      discriminate. }
    rewrite Hex. apply app_nil_r.
  - intros (name & Hk & Hnot).
    assert (Hex : existsb (fun symbol => negb (key_in symbol (params_of m)))
                          (map fst symbols_map) = true).
    { apply existsb_exists. exists (KSym name). split.
      - apply list_elem_of_In. exact Hk.
      - simpl. rewrite bool_decide_eq_false_2 by exact Hnot. reflexivity. }
    rewrite Hex. reflexivity.
Qed.

End evaluation.

(** ** Gate.to_dict, Gate.save, Gate.load *)

(** The rows of a matrix, one after the other, are its entries. *)
Lemma rows_concat (c r : nat) (es : list expr) :
  length es = (r * c)%nat ->
  concat (map (fun i => take c (drop (i * c) es)) (seq 0 r)) = es.
Proof.
  revert es. induction r as [|r IH]; intros es Hlen.
  - destruct es; [reflexivity | discriminate].
  - cbn [seq map concat]. rewrite <- seq_shift, map_map. cbn [Nat.mul drop Nat.add].
    transitivity (take c es ++ drop c es); [|apply take_drop].
    f_equal.
    rewrite <- (IH (drop c es)) by (rewrite length_drop; lia).
    f_equal. apply map_ext. intros i. rewrite drop_drop. try (f_equal; f_equal; lia); reflexivity.
Qed.



Lemma row_Matrix_map (f : expr -> expr) (m : Matrix) (i : nat) :
  row (Matrix_map f m) i = map f (row m i).
Proof. unfold row. simpl. rewrite skipn_map, firstn_map. reflexivity. Qed.


(** Rows that stand against rows of one length have that length. *)
Lemma rows_same_length {A B} (P : A -> B -> Prop) (rs : list (list A))
    (ks : list (list B)) (c : nat) :
  Forall2 (Forall2 P) rs ks -> Forall (fun r => length r = c) rs ->
  Forall (fun k => length k = c) ks.
Proof.
  induction 1 as [|r k rs ks Hr _ IH]; intros Hall; [constructor|].
  apply Forall_cons in Hall as [Hc Hall]. constructor; [|apply IH; exact Hall].
  rewrite <- (Forall2_length _ _ _ Hr). exact Hc.
Qed.

Lemma Matrix_of_rows_rectangular (new_rows : list (list expr)) (c : nat) :
  new_rows <> [] -> Forall (fun r => length r = c) new_rows ->
  Matrix_of_rows new_rows
  = Some {| rows := length new_rows; cols := c; entries := concat new_rows |}.
Proof.
  intros Hne Hall. unfold Matrix_of_rows.
  assert (Hc : match new_rows with [] => 0%nat | r :: _ => length r end = c).
  { destruct new_rows as [|r rest]; [congruence|]. apply Forall_cons in Hall. apply Hall. }
  rewrite Hc.
  assert (Hrect : forallb (fun r => bool_decide (length r = c)) new_rows = true).
  { apply forallb_forall. intros r Hr. apply bool_decide_eq_true_2.
    rewrite Forall_forall in Hall. apply Hall. apply list_elem_of_In. exact Hr. }
  rewrite Hrect. reflexivity.
Qed.

(** ** The objects that [load] parses *)

Lemma first_evalf_error_app (values values' : list sympified) :
  first_evalf_error (values ++ values')
  = match first_evalf_error values with
    | Some e => Some e
    | None => first_evalf_error values'
    end.
Proof.
  induction values as [|[e|e] rest IH]; simpl; [reflexivity | exact IH | reflexivity].
Qed.

Lemma first_evalf_error_Expression (es : list expr) :
  first_evalf_error (map Expression es) = None.
Proof. induction es as [|e es IH]; [reflexivity | exact IH]. Qed.

Lemma the_expressions_Expression (es : list expr) :
  the_expressions (map Expression es) = es.
Proof.
  induction es as [|e es IH]; [reflexivity|].
  unfold the_expressions in *. cbn. rewrite IH. reflexivity.
Qed.


Lemma first_evalf_error_rows (new_rows : list (list expr)) :
  first_evalf_error (concat (map (map Expression) new_rows)) = None.
Proof.
  induction new_rows as [|r rest IH]; [reflexivity|]. cbn [map concat].
  rewrite first_evalf_error_app, first_evalf_error_Expression. exact IH.
Qed.

Lemma the_expressions_rows (new_rows : list (list expr)) :
  map the_expressions (map (map Expression) new_rows) = new_rows.
Proof.
  induction new_rows as [|r rest IH]; [reflexivity|]. cbn [map].
  rewrite the_expressions_Expression, IH. reflexivity.
Qed.


Section serialization.
Context {L : SympyLib}.
Variable SCHEMA_VERSION : string.

Lemma compare_contents_same (qs : list Z) (m : Matrix) :
  compare_contents qs qs m m = Ok true.
Proof.
  unfold compare_contents.
  rewrite !bool_decide_eq_true_2 by reflexivity. simpl.
  rewrite zip_same_no_mismatch.
  pose proof (any_differ_same (entries m) {| heap := []; warnings := [] |}) as H.
  rewrite any_differ_run in H. injection H as ->. reflexivity.
Qed.

(** *** The loops of [load] over the strings *)

Lemma sympify_row_values (elements : list string) (values : list sympified) :
  sympify_row elements = Ok values <->
  Forall2 (fun element value => sympify element = Ok value) elements values.
Proof.
  split.
  - revert values. induction elements as [|x xs IH]; intros values; simpl.
    + intros [= <-]. constructor.
    + destruct (sympify x) as [v|e] eqn:Hx; [|discriminate].
      destruct (sympify_row xs) as [vs|e]; [|discriminate].
      intros [= <-]. constructor; [exact Hx | apply IH; reflexivity].
  - induction 1 as [|x v xs vs Hx _ IH]; simpl; [reflexivity|].
    rewrite Hx, IH. reflexivity.
Qed.

Lemma sympify_rows_values (rs : list (list string)) (cells : list (list sympified)) :
  sympify_rows rs = Ok cells <->
  Forall2 (Forall2 (fun element value => sympify element = Ok value)) rs cells.
Proof.
  split.
  - revert cells. induction rs as [|r rest IH]; intros cells; simpl.
    + intros [= <-]. constructor.
    + destruct (sympify_row r) as [vs|e] eqn:Hr; [|discriminate].
      destruct (sympify_rows rest) as [vss|e]; [|discriminate].
      intros [= <-]. constructor; [apply sympify_row_values; exact Hr | apply IH; reflexivity].
  - induction 1 as [|r vs rest vss Hr _ IH]; simpl; [reflexivity|].
    apply sympify_row_values in Hr. rewrite Hr, IH. reflexivity.
Qed.

Lemma parsed_values (rs : list (list string)) (new_rows : list (list expr)) :
  Forall2 (Forall2 (fun element e => sympify element = Ok (Expression e))) rs new_rows <->
  Forall2 (Forall2 (fun element value => sympify element = Ok value)) rs
          (map (map Expression) new_rows).
Proof.
  split.
  - induction 1 as [|r k rest ks Hr _ IH]; cbn [map]; constructor; [|exact IH].
    induction Hr; cbn [map]; constructor; assumption.
  - revert rs. induction new_rows as [|k ks IH]; intros rs H; cbn [map] in H.
    + inversion H; subst. constructor.
    + inversion H as [|r k' rest ks' Hr Hrest]; subst. constructor; [|apply IH; exact Hrest].
      clear -Hr. revert r Hr. induction k as [|e k IHk]; intros r Hr; cbn [map] in Hr.
      * inversion Hr; subst. constructor.
      * inversion Hr; subst. constructor; [assumption | apply IHk; assumption].
Qed.

(** The concatenation of the rows is parsed as one row would be. *)
Lemma sympify_row_app (elements elements' : list string) :
  sympify_row (elements ++ elements')
  = match sympify_row elements with
    | Raise e => Raise e
    | Ok values =>
        match sympify_row elements' with
        | Raise e => Raise e
        | Ok values' => Ok (values ++ values')
        end
    end.
Proof.
  induction elements as [|x xs IH]; simpl.
  - destruct (sympify_row elements'); reflexivity.
  - destruct (sympify x) as [v|e]; [|reflexivity]. rewrite IH.
    destruct (sympify_row xs) as [vs|e]; [|reflexivity].
    destruct (sympify_row elements'); reflexivity.
Qed.

Lemma sympify_rows_concat (rs : list (list string)) :
  sympify_row (concat rs)
  = match sympify_rows rs with
    | Raise e => Raise e
    | Ok cells => Ok (concat cells)
    end.
Proof.
  induction rs as [|r rest IH]; [reflexivity|]. cbn [concat sympify_rows].
  rewrite sympify_row_app, IH.
  destruct (sympify_row r) as [vs|e]; [|reflexivity].
  destruct (sympify_rows rest) as [vss|e]; reflexivity.
Qed.

(** A string that [sympify] does not parse, after strings that it does,
    ends the loops with its exception. *)
Lemma sympify_rows_raises (rs : list (list string)) (before : list string)
    (element : string) (after : list string) (e : exn) :
  concat rs = before ++ element :: after ->
  Forall (fun x => exists value, sympify x = Ok value) before ->
  sympify element = Raise e ->
  sympify_rows rs = Raise e.
Proof.
  intros Hconcat Hbefore Helement.
  assert (Hflat : sympify_row (concat rs) = Raise e).
  { rewrite Hconcat, sympify_row_app.
    assert (Hvs : exists values, sympify_row before = Ok values).
    { clear Hconcat. induction Hbefore as [|x xs [v Hv] _ [vs IH]]; simpl; [eauto|].
      rewrite Hv, IH. eauto. }
    destruct Hvs as [values ->]. simpl. rewrite Helement. reflexivity. }
  rewrite sympify_rows_concat in Hflat.
  destruct (sympify_rows rs) as [cells|e']; [discriminate | congruence].
Qed.

(** *** [load] on a list of rows *)

Lemma load_rows_run (s : state) (data : gate_dict) (rs : list (list string))
    (new_rows : list (list expr)) :
  d_matrix data = Rows rs ->
  Forall2 (Forall2 (fun element e => sympify element = Ok (Expression e))) rs new_rows ->
  load data s =
    match Matrix_of_rows new_rows with
    | Some m => CustomGate (length (heap s)) (d_qubits data)
                  {| heap := heap s ++ [MatrixObj m]; warnings := warnings s |}
    | None => (Raise (ValueError MismatchedDimensions), s)
    end.
Proof.
  intros Hd Hparsed. unfold load. rewrite Hd. unfold lift, bind.
  apply parsed_values, sympify_rows_values in Hparsed. rewrite Hparsed.
  rewrite first_evalf_error_rows, the_expressions_rows.
  destruct (Matrix_of_rows new_rows); reflexivity.
Qed.


(** *** Saving a gate and loading the file *)








End serialization.

(** ** The conversion to expression trees *)

(** Dispatch finds nothing in an empty registry. *)
Lemma dispatch_empty (classes : list sympy_class) :
  symbolic_expressions.dispatch [] classes = None.
Proof. induction classes as [|c rest IH]; [reflexivity|]. simpl. exact IH. Qed.

(** C9, as the code has it.  The module registers no implementation of the
    conversion, for no class: for every expression, numbers and symbols
    included, it raises NotImplementedError with the expression and its
    type. *)
Theorem expression_tree_from_sympy_not_implemented (e : expr) :
  symbolic_expressions.expression_tree_from_sympy e
  = Raise (NotImplementedError e (class_of e)).
Proof.
  unfold symbolic_expressions.expression_tree_from_sympy,
    symbolic_expressions.singledispatch.
  rewrite dispatch_empty. reflexivity.
Qed.

(** C9 as stated fails: a symbol is in the supported grammar, and its
    conversion raises. *)
Lemma expression_tree_from_sympy_symbol_fails :
  ~ (forall e, spec_supported_grammar e = true ->
       exists tree, symbolic_expressions.expression_tree_from_sympy e = Ok tree).
Proof.
  intros H. destruct (H (Symbol "theta") eq_refl) as [tree Htree].
  rewrite expression_tree_from_sympy_not_implemented in Htree. discriminate.
Qed.


(** * The properties at concrete gates *)

Lemma two_gates_first :
  gate_stored two_gates 1%nat (custom_gate [0] 0%nat) 0%nat identity_matrix.
Proof. repeat split. Qed.

Lemma two_gates_second :
  gate_stored two_gates 3%nat (custom_gate [0] 2%nat) 2%nat near_identity_matrix.
Proof. repeat split. Qed.

Lemma valid_identity_gate (ml : loc) : valid_gate (custom_gate [0] ml) identity_matrix.
Proof. split_and!; try reflexivity. apply NoDup_singleton. Qed.

Lemma valid_rx_gate : valid_gate rx_gate rx_matrix.
Proof. split_and!; try reflexivity. apply NoDup_singleton. Qed.

Lemma rx_gate_at : gate_at rx_store 0%nat rx_gate rx_matrix.
Proof. split; reflexivity. Qed.

Lemma params_of_rx_matrix : params_of rx_matrix = {[ "theta"%string ]}.
Proof. unfold params_of. simpl. set_solver. Qed.

(** On the two gates of [two_gates], whatever the library operations are:
    the first gate compares equal to the second, the second does not
    compare equal to the first.  The entries [1.0] and [1.00001001005]
    differ by [1.001005e-05]: within [atol + rtol * 1.00001001005], not
    within [atol + rtol * 1.0]. *)
Lemma eq_first_second (L : SympyLib) :
  __eq__ (PyRef 1%nat) (PyRef 3%nat) two_gates = (Ok true, two_gates).
Proof.
  rewrite (eq_stored _ _ _ _ _ _ _ _ _ two_gates_first two_gates_second).
  unfold compare_contents.
  replace (params_of identity_matrix) with (∅ : gset string) by reflexivity.
  replace (params_of near_identity_matrix) with (∅ : gset string) by reflexivity.
  cbn -[are_elements_equal].
  rewrite are_elements_equal_Float by reflexivity.
  rewrite allclose_real by reflexivity.
  rewrite !are_elements_equal_refl. reflexivity.
Qed.

Lemma eq_second_first (L : SympyLib) :
  __eq__ (PyRef 3%nat) (PyRef 1%nat) two_gates = (Ok false, two_gates).
Proof.
  rewrite (eq_stored _ _ _ _ _ _ _ _ _ two_gates_second two_gates_first).
  unfold compare_contents.
  replace (params_of identity_matrix) with (∅ : gset string) by reflexivity.
  replace (params_of near_identity_matrix) with (∅ : gset string) by reflexivity.
  cbn -[are_elements_equal].
  rewrite are_elements_equal_Float by reflexivity.
  rewrite allclose_real by reflexivity. reflexivity.
Qed.

(** C8 as stated fails: gate equality is not symmetric. *)
Lemma eq_not_symmetric :
  (forall L : SympyLib,
     @__eq__ L (PyRef 1%nat) (PyRef 3%nat) two_gates = (Ok true, two_gates)) /\
  (forall L : SympyLib,
     @__eq__ L (PyRef 3%nat) (PyRef 1%nat) two_gates = (Ok false, two_gates)).
Proof. split; intros L; [apply eq_first_second | apply eq_second_first]. Qed.

(** C4 at the identity matrix and qubit 0, and at a repeated qubit. *)
Lemma CustomGate_construction_witness :
  heap rx_store !! 1%nat = Some (MatrixObj identity_matrix) /\
  (exists self s', @CustomGate reference_lib 1%nat [0] rx_store = (Ok self, s')) /\
  (exists msg s', @CustomGate reference_lib 1%nat [0; 0] rx_store
                  = (Raise (ValueError msg), s')).
Proof.
  split; [reflexivity|].
  split.
  - destruct (@CustomGate_construction reference_lib rx_store 1%nat identity_matrix [0]
                eq_refl) as (Hok & _ & _).
    destruct (Hok eq_refl (NoDup_singleton 0)) as (self & ml & s' & Hrun & _).
    exists self, s'. exact Hrun.
  - destruct (@CustomGate_construction reference_lib rx_store 1%nat identity_matrix
                [0; 0] eq_refl) as (_ & Hshape & _).
    eexists _, _. apply Hshape. discriminate.
Defined.

(** C10 at None and at an integer. *)
Lemma eq_raises_without_qubits_witness :
  heap two_gates !! 1%nat = Some (GateObj (custom_gate [0] 0%nat)) /\
  @__eq__ reference_lib (PyRef 1%nat) PyNone two_gates
  = (Raise (AttributeError "qubits"), two_gates) /\
  @__eq__ reference_lib (PyRef 1%nat) (PyInt 5) two_gates
  = (Raise (AttributeError "qubits"), two_gates).
Proof.
  split; [reflexivity|]. split.
  - exact (@eq_raises_without_qubits reference_lib two_gates 1%nat
             (custom_gate [0] 0%nat) PyNone eq_refl eq_refl).
  - exact (@eq_raises_without_qubits reference_lib two_gates 1%nat
             (custom_gate [0] 0%nat) (PyInt 5) eq_refl eq_refl).
Defined.

(** C8 at the specialized gate of [rx_store]. *)
Lemma eq_reflexive_and_deepcopy_invariant_witness :
  gate_at rx_store 0%nat rx_gate rx_matrix /\
  (exists s', @__eq__ reference_lib (PyRef 0%nat) (PyRef 0%nat) rx_store = (Ok true, s')) /\
  (exists c s1, deepcopy_gate 0%nat rx_store = (Ok c, s1) /\
     (exists s2, @__eq__ reference_lib (PyRef c) (PyRef 0%nat) s1 = (Ok true, s2))).
Proof.
  split; [exact rx_gate_at|].
  destruct (@eq_reflexive_and_deepcopy_invariant reference_lib rx_store 0%nat rx_gate
              rx_matrix rx_gate_at) as (Hrefl & (c & s1 & Hcopy & _ & _ & Hback) & _).
  split; [exact Hrefl|]. exists c, s1. split; [exact Hcopy | exact Hback].
Defined.

(** C5 at the specialized gate of [rx_store], with [{theta: 0.5}]. *)
Lemma evaluate_returns_new_CustomGate_witness :
  gate_at rx_store 0%nat rx_gate rx_matrix /\ valid_gate rx_gate rx_matrix /\
  exists new ml' s',
    @evaluate reference_lib 0%nat [(KSym "theta", Float 0.5)] rx_store = (Ok new, s') /\
    heap rx_store !! new = None /\
    heap s' !! new = Some (GateObj (custom_gate [0] ml')).
Proof.
  split; [exact rx_gate_at|]. split; [exact valid_rx_gate|].
  destruct (@evaluate_returns_new_CustomGate reference_lib rx_store 0%nat rx_gate
              rx_matrix [(KSym "theta", Float 0.5)] rx_gate_at valid_rx_gate)
    as (new & ml' & m' & s' & Hrun & Hfresh & Hnew & _).
  exists new, ml', s'. split_and!; assumption.
Defined.

(** C3 at the first gate of [two_gates]: no free symbol, and
    [is_parameterized] is True. *)
Lemma is_parameterized_true_witness :
  gate_at two_gates 1%nat (custom_gate [0] 0%nat) identity_matrix /\
  valid_gate (custom_gate [0] 0%nat) identity_matrix /\
  exists s', is_parameterized (PyRef 1%nat) two_gates = (Ok true, s') /\
             symbolic_params (PyRef 1%nat) two_gates = (Ok ∅, s').
Proof.
  split; [exact (gate_stored_at _ _ _ _ _ two_gates_first)|].
  split; [exact (valid_identity_gate 0%nat)|].
  exact (is_parameterized_true two_gates 1%nat (custom_gate [0] 0%nat) identity_matrix
           (gate_stored_at _ _ _ _ _ two_gates_first) (valid_identity_gate 0%nat)).
Defined.

(** C7 at the first gate of [two_gates], with the empty mapping: no warning. *)
Lemma evaluate_numeric_gate_warnings_witness :
  gate_at two_gates 1%nat (custom_gate [0] 0%nat) identity_matrix /\
  valid_gate (custom_gate [0] 0%nat) identity_matrix /\
  params_of identity_matrix = ∅ /\
  exists new s', @evaluate reference_lib 1%nat [] two_gates = (Ok new, s') /\
                 warnings s' = [].
Proof.
  split; [exact (gate_stored_at _ _ _ _ _ two_gates_first)|].
  split; [exact (valid_identity_gate 0%nat)|].
  split; [reflexivity|].
  destruct (@evaluate_numeric_gate_warnings reference_lib two_gates 1%nat
              (custom_gate [0] 0%nat) identity_matrix []
              (gate_stored_at _ _ _ _ _ two_gates_first) (valid_identity_gate 0%nat)
              eq_refl) as (new & s' & Hrun & Hw & _).
  exists new, s'. split; [exact Hrun | exact Hw].
Defined.

(** C6 at the specialized gate of [rx_store], with [{"theta": 0.5}]: the
    gate has the symbol [theta], and the warning is emitted. *)
Lemma evaluate_string_key_warns_witness :
  gate_at rx_store 0%nat rx_gate rx_matrix /\ valid_gate rx_gate rx_matrix /\
  params_of rx_matrix = {[ "theta"%string ]} /\
  exists new s',
    @evaluate reference_lib 0%nat [(KStr "theta", Float 0.5)] rx_store = (Ok new, s') /\
    warnings s' = [SymbolsMismatch (params_of rx_matrix) [KStr "theta"]].
Proof.
  split; [exact rx_gate_at|]. split; [exact valid_rx_gate|].
  split; [exact params_of_rx_matrix|].
  apply (@evaluate_string_key_warns reference_lib rx_store 0%nat rx_gate rx_matrix
           [(KStr "theta", Float 0.5)] "theta" rx_gate_at valid_rx_gate).
  apply list_elem_of_here.
Defined.



Lemma theta_gate_at :
  gate_at theta_store 1%nat (custom_gate [0] 0%nat) theta_matrix.
Proof. split; reflexivity. Qed.

Lemma valid_theta_gate : valid_gate (custom_gate [0] 0%nat) theta_matrix.
Proof. split_and!; try reflexivity. apply NoDup_singleton. Qed.




Lemma integer_gate_at :
  gate_at integer_store 0%nat integer_gate integer_identity_matrix.
Proof. split; reflexivity. Qed.

Lemma valid_integer_gate : valid_gate integer_gate integer_identity_matrix.
Proof. split_and!; try reflexivity. apply NoDup_singleton. Qed.



(** * Further properties of the gates *)

(** ** Qubits *)

(** X1.  [are_qubits_unique] is True exactly when no qubit stands at two
    positions of the tuple. *)
Theorem are_qubits_unique_positions (qs : list Z) :
  are_qubits_unique qs = true <->
  (forall i j q, qs !! i = Some q -> qs !! j = Some q -> i = j).
Proof.
  rewrite are_qubits_unique_NoDup. apply NoDup_alt.
Qed.

(** ** The property [matrix] *)

(** X2.  An access to [matrix] returns the matrix the gate stands for.  On
    a specialized gate whose matrix is not created yet it stores what
    [_create_matrix] returns, as one new object; on any other gate it
    allocates nothing.  Every later access returns the same object and
    leaves the store as it is: the matrix is created at most once. *)
Theorem matrix_created_once (s : state) (self : loc) (g : Gate) (m : Matrix) :
  gate_at s self g m ->
  exists ml s1,
    matrix (PyRef self) s = (Ok ml, s1) /\
    heap s1 !! ml = Some (MatrixObj m) /\
    length (heap s1)
      = (length (heap s) + if _matrix g is Some _ then 0 else 1)%nat /\
    others_kept self s s1 /\
    matrix (PyRef self) s1 = (Ok ml, s1).
Proof.
  intros [Hg Hm]. destruct (_matrix g) as [ml|] eqn:Hc.
  - assert (Hs : gate_stored s self g ml m) by (repeat split; assumption).
    exists ml, s. rewrite (matrix_stored _ _ _ _ _ Hs).
    split_and!; [reflexivity | exact Hm | lia | | reflexivity].
    intros l o _ Hl. exact Hl.
  - assert (Hlt : (self < length (heap s))%nat) by (eapply lookup_lt_Some; exact Hg).
    eexists _, _. split.
    { unfold matrix. rewrite (bind_ok _ _ _ _ _ (read_gate_ok _ _ _ _ Hg)).
      rewrite Hc, Hm. reflexivity. }
    unfold others_kept. cbn [heap]. split_and!.
    + rewrite list_lookup_insert_ne by lia. apply list_lookup_middle. reflexivity.
    + rewrite length_insert, length_app. reflexivity.
    + intros l o Hne Hl. rewrite list_lookup_insert_ne by congruence.
      apply lookup_app_l_Some. exact Hl.
    + eapply matrix_stored. unfold gate_stored. cbn [heap]. split_and!.
      * apply list_lookup_insert_eq. rewrite length_app. lia.
      * reflexivity.
      * rewrite list_lookup_insert_ne by lia. apply list_lookup_middle. reflexivity.
Qed.

(** X2 at the specialized gate of [rx_store]: one object is created. *)
Lemma matrix_created_once_witness :
  gate_at rx_store 0%nat rx_gate rx_matrix /\
  exists ml s1,
    matrix (PyRef 0%nat) rx_store = (Ok ml, s1) /\
    heap s1 !! ml = Some (MatrixObj rx_matrix) /\
    length (heap s1) = 3%nat /\
    matrix (PyRef 0%nat) s1 = (Ok ml, s1).
Proof.
  split; [exact rx_gate_at|].
  destruct (matrix_created_once rx_store 0%nat rx_gate rx_matrix rx_gate_at)
    as (ml & s1 & Hrun & Hm & Hlen & _ & Hagain).
  exists ml, s1. split_and!; assumption.
Defined.

(** ** symbolic_params *)

(** X3.  [symbolic_params] returns the names of the symbols that occur in
    some entry of the gate's matrix, and no other name. *)
Theorem symbolic_params_membership (s : state) (self : loc) (g : Gate) (m : Matrix) :
  gate_at s self g m ->
  exists params s',
    symbolic_params (PyRef self) s = (Ok params, s') /\
    forall name,
      name ∈ params <-> exists element, element ∈ entries m /\ name ∈ free_symbols element.
Proof.
  intros Hat.
  destruct (matrix_forced s self g m Hat) as (ml & g1 & s1 & Hrun & Hs1 & _).
  exists (params_of m), s1. split.
  - assert (Hel : matrix_elements (PyRef self) s = (Ok (entries m), s1)).
    { unfold matrix_elements. rewrite (bind_ok _ _ _ _ _ Hrun).
      rewrite (bind_ok _ _ _ _ _ (read_matrix_ok _ _ _ (proj2 (proj2 Hs1)))).
      reflexivity. }
    unfold symbolic_params. rewrite (bind_ok _ _ _ _ _ Hel).
    unfold ret, params_of. rewrite filter_isinstance_Expr. reflexivity.
  - intros name. unfold params_of. rewrite elem_of_union_list. split.
    + intros (X & HX & Hname). apply list_elem_of_fmap in HX as (element & -> & Hel).
      exists element. split; assumption.
    + intros (element & Hel & Hname). exists (free_symbols element). split; [|exact Hname].
      apply list_elem_of_fmap. exists element. split; [reflexivity | exact Hel].
Qed.

(** X3 at the specialized gate of [rx_store]: [theta] is a parameter. *)
Lemma symbolic_params_membership_witness :
  gate_at rx_store 0%nat rx_gate rx_matrix /\
  exists params s',
    symbolic_params (PyRef 0%nat) rx_store = (Ok params, s') /\
    "theta"%string ∈ params.
Proof.
  split; [exact rx_gate_at|].
  destruct (symbolic_params_membership rx_store 0%nat rx_gate rx_matrix rx_gate_at)
    as (params & s' & Hrun & Hiff).
  exists params, s'. split; [exact Hrun|].
  apply Hiff. exists (Function "cos" [half_theta]). split.
  - apply list_elem_of_here.
  - simpl. set_solver.
Defined.

(** ** are_elements_equal *)

Section element_comparison.
Context {L : SympyLib}.

(** X4.  Two elements are found equal exactly when they are the same
    expression, or the right one is a number, a product or a sum, both convert
    to complex numbers and numpy finds these close.  The class of the left
    element is never looked at. *)
Theorem are_elements_equal_true_iff (element another_element : expr) :
  are_elements_equal element another_element = Ok true <->
  element = another_element \/
  (isinstance_any another_element numeric_like = true /\
   exists x y, complex (re element) (im element) = Ok x /\
               complex (re another_element) (im another_element) = Ok y /\
               allclose x y = true).
Proof.
  unfold are_elements_equal.
  destruct (expr_eqb element another_element) eqn:He.
  - split; [|reflexivity]. intros _. left. apply expr_eqb_eq. exact He.
  - apply expr_eqb_neq in He.
    destruct (isinstance_any another_element numeric_like) eqn:Hn; cbn [andb].
    + destruct (complex (re element) (im element)) as [x|e] eqn:Hx.
      * destruct (complex (re another_element) (im another_element)) as [y|e] eqn:Hy.
        -- split.
           ++ intros H. right. split; [reflexivity|]. exists x, y. split_and!; congruence.
           ++ intros [Heq|(_ & x' & y' & Hx' & Hy' & Hclose)]; [contradiction|]. congruence.
        -- split; [discriminate|].
           intros [Heq|(_ & x' & y' & Hx' & Hy' & Hclose)]; [contradiction | discriminate].
      * split; [discriminate|].
        intros [Heq|(_ & x' & y' & Hx' & Hy' & Hclose)]; [contradiction | discriminate].
    + split; [discriminate|].
      intros [Heq|(Hn' & _)]; [contradiction | discriminate].
Qed.

(** X5.  The comparison of two elements raises exactly when the elements
    differ, the right one is a number, a product or a sum, and one of the
    two conversions to a complex number raises, the left one first.  With a
    right element of any other class nothing is converted and nothing is
    raised. *)
Theorem are_elements_equal_raises_iff (element another_element : expr) (e : exn) :
  are_elements_equal element another_element = Raise e <->
  element <> another_element /\
  isinstance_any another_element numeric_like = true /\
  (complex (re element) (im element) = Raise e \/
   (exists x, complex (re element) (im element) = Ok x) /\
   complex (re another_element) (im another_element) = Raise e).
Proof.
  unfold are_elements_equal.
  destruct (expr_eqb element another_element) eqn:He.
  - apply expr_eqb_eq in He. split; [discriminate|]. intros [Hne _]. contradiction.
  - apply expr_eqb_neq in He.
    destruct (isinstance_any another_element numeric_like) eqn:Hn; cbn [andb].
    + destruct (complex (re element) (im element)) as [x|e'] eqn:Hx.
      * destruct (complex (re another_element) (im another_element)) as [y|e'] eqn:Hy.
        -- split; [discriminate|].
           intros (_ & _ & [H|[_ H]]); discriminate.
        -- split.
           ++ intros H. split_and!; [exact He | reflexivity |]. right. split; [eauto|].
              congruence.
           ++ intros (_ & _ & [H|[_ H]]); [discriminate | congruence].
      * split.
        -- intros H. split_and!; [exact He | reflexivity |]. left. congruence.
        -- intros (_ & _ & [H|[[x Hx'] _]]); [congruence | discriminate].
    + split; [discriminate|]. intros (_ & H & _). discriminate.
Qed.

(** X6.  With a symbol on the left, the comparison returns True for the
    same symbol, raises TypeError for every number, product and sum on the
    right, and returns False for anything else. *)
Theorem are_elements_equal_Symbol (name : string) (another_element : expr) :
  are_elements_equal (Symbol name) another_element =
    match another_element with
    | Symbol another_name => Ok (bool_decide (name = another_name))
    | _ => if isinstance_any another_element numeric_like then Raise TypeError
           else Ok false
    end.
Proof.
  unfold are_elements_equal.
  destruct another_element as [z|p q|f| |another_name|args|args|b e|f args];
    cbn [expr_eqb];
    try (destruct (isinstance_any _ numeric_like); cbn [andb];
         [rewrite complex_of_Symbol|]; reflexivity).
  destruct (bool_decide (name = another_name)); reflexivity.
Qed.

End element_comparison.

(** ** Gate.__eq__ *)

Section gate_comparison.
Context {L : SympyLib}.

(** [==] on any two gates: its result is that of [compare_contents] on the
    qubits and the matrices the two gates stand for; on the way the
    matrices of specialized gates may be created, and nothing else
    changes. *)
Lemma eq_run (s : state) (a b : loc) (ga gb : Gate) (ma mb : Matrix) :
  gate_at s a ga ma -> gate_at s b gb mb ->
  exists s',
    __eq__ (PyRef a) (PyRef b) s
      = (compare_contents (qubits ga) (qubits gb) ma mb, s') /\
    warnings s' = warnings s /\
    (forall l o, l <> a -> l <> b -> heap s !! l = Some o -> heap s' !! l = Some o).
Proof.
  intros Ha Hb.
  assert (Hga : heap s !! a = Some (GateObj ga)) by apply Ha.
  assert (Hgb : heap s !! b = Some (GateObj gb)) by apply Hb.
  destruct (decide (a = b)) as [->|Hne].
  { rewrite Hga in Hgb. injection Hgb as <-.
    assert (mb = ma) as ->.
    { destruct Ha as [_ Ha], Hb as [_ Hb]. destruct (_matrix ga); congruence. }
    destruct (eq_same_content s b b ga ga ma Ha Ha eq_refl) as (s' & Hrun & Hw & Hk).
    exists s'. rewrite compare_contents_same. split_and!; assumption. }
  unfold __eq__, compare_contents.
  rewrite (bind_ok _ _ _ _ _ (get_qubits_ok _ _ _ Hga)).
  rewrite (bind_ok _ _ _ _ _ (get_qubits_ok _ _ _ Hgb)).
  destruct (negb (bool_decide (length (qubits ga) = length (qubits gb)))).
  { exists s. split_and!; auto. }
  destruct (existsb _ (zip (qubits ga) (qubits gb))).
  { exists s. split_and!; auto. }
  destruct (matrix_forced s a ga ma Ha)
    as (mla & ga' & s1 & Hrun1 & Hsa & Hqa & _ & Hkept1 & Hw1 & _ & _).
  assert (Hb1 : gate_at s1 b gb mb) by (eapply gate_at_kept; eauto).
  destruct (matrix_forced s1 b gb mb Hb1)
    as (mlb & gb' & s2 & Hrun2 & Hsb & Hqb & _ & Hkept2 & Hw2 & _ & _).
  assert (Hsa2 : gate_stored s2 a ga' mla ma).
  { eapply gate_stored_kept; [exact Hkept2 | apply Hb1 | exact Hne | exact Hsa]. }
  exists s2. split_and!.
  - rewrite (bind_ok _ _ _ _ _ Hrun1).
    rewrite (bind_ok _ _ _ _ _ (read_matrix_ok _ _ _ (proj2 (proj2 Hsa)))).
    rewrite (bind_ok _ _ _ _ _ Hrun2).
    rewrite (bind_ok _ _ _ _ _ (read_matrix_ok _ _ _ (proj2 (proj2 Hsb)))).
    destruct (negb (bool_decide (Matrix_len ma = Matrix_len mb))); [reflexivity|].
    rewrite (bind_ok _ _ _ _ _ (symbolic_params_stored _ _ _ _ _ Hsa2)).
    rewrite (bind_ok _ _ _ _ _ (symbolic_params_stored _ _ _ _ _ Hsb)).
    destruct (negb (bool_decide (params_of ma = params_of mb))); [reflexivity|].
    rewrite (bind_ok _ _ _ _ _ (matrix_elements_stored _ _ _ _ _ Hsa2)).
    rewrite (bind_ok _ _ _ _ _ (matrix_elements_stored _ _ _ _ _ Hsb)).
    pose proof (any_differ_run (zip (entries ma) (entries mb)) s2) as Hany.
    destruct (any_differ (zip (entries ma) (entries mb))) as [[|]|e].
    + rewrite (bind_ok _ _ _ _ _ Hany). reflexivity.
    + rewrite (bind_ok _ _ _ _ _ Hany). reflexivity.
    + rewrite (bind_raise _ _ _ _ _ Hany). reflexivity.
  - congruence.
  - intros l o Hla Hlb Hl. apply Hkept2; [exact Hlb|]. apply Hkept1; assumption.
Qed.

(** X7.  [self == another_gate] is True exactly when the two tuples of
    qubits are equal, the two matrices have the same number of entries and
    the same free symbols, and every entry of the first is found equal to
    the entry of the second at its place. *)
Theorem eq_true_iff (s : state) (a b : loc) (ga gb : Gate) (ma mb : Matrix) :
  gate_at s a ga ma -> gate_at s b gb mb ->
  (exists s', __eq__ (PyRef a) (PyRef b) s = (Ok true, s')) <->
  qubits ga = qubits gb /\ Matrix_len ma = Matrix_len mb /\
  params_of ma = params_of mb /\
  Forall (fun p => are_elements_equal p.1 p.2 = Ok true) (zip (entries ma) (entries mb)).
Proof.
  intros Ha Hb. destruct (eq_run s a b ga gb ma mb Ha Hb) as (s' & Hrun & _).
  rewrite <- compare_contents_true_iff. split.
  - intros [s'' H]. congruence.
  - intros H. exists s'. rewrite Hrun, H. reflexivity.
Qed.

(** X8.  When the qubits of two gates differ, [==] returns False at once:
    no matrix is read or created, no element is compared, nothing is
    raised and the store is left as it is. *)
Theorem eq_differing_qubits (s : state) (a b : loc) (ga gb : Gate) :
  heap s !! a = Some (GateObj ga) -> heap s !! b = Some (GateObj gb) ->
  qubits ga <> qubits gb ->
  __eq__ (PyRef a) (PyRef b) s = (Ok false, s).
Proof.
  intros Hga Hgb Hq. unfold __eq__.
  rewrite (bind_ok _ _ _ _ _ (get_qubits_ok _ _ _ Hga)).
  rewrite (bind_ok _ _ _ _ _ (get_qubits_ok _ _ _ Hgb)).
  rewrite <- qubits_compared in Hq.
  destruct (negb (bool_decide (length (qubits ga) = length (qubits gb))));
    [reflexivity|].
  destruct (existsb _ (zip (qubits ga) (qubits gb))); [reflexivity|].
  exfalso. apply Hq. reflexivity.
Qed.

(** X9.  [self == another_gate] raises exactly when the qubits, the
    numbers of entries and the free symbols of the two gates are equal and
    the comparison of some pair of entries raises, every pair before it
    having been found equal; the exception is that of this pair. *)
Theorem eq_raises_iff (s : state) (a b : loc) (ga gb : Gate) (ma mb : Matrix)
    (e : exn) :
  gate_at s a ga ma -> gate_at s b gb mb ->
  (exists s', __eq__ (PyRef a) (PyRef b) s = (Raise e, s')) <->
  qubits ga = qubits gb /\ Matrix_len ma = Matrix_len mb /\
  params_of ma = params_of mb /\
  exists i p,
    zip (entries ma) (entries mb) !! i = Some p /\
    are_elements_equal p.1 p.2 = Raise e /\
    Forall (fun q => are_elements_equal q.1 q.2 = Ok true)
           (take i (zip (entries ma) (entries mb))).
Proof.
  intros Ha Hb. destruct (eq_run s a b ga gb ma mb Ha Hb) as (s' & Hrun & _).
  rewrite <- any_differ_raise_iff, <- compare_contents_raise_iff. split.
  - intros [s'' H]. congruence.
  - intros H. exists s'. rewrite Hrun, H. reflexivity.
Qed.

End gate_comparison.

(** X7 at the two gates of [two_gates], first against second. *)
Lemma eq_true_iff_witness :
  gate_at two_gates 1%nat (custom_gate [0] 0%nat) identity_matrix /\
  gate_at two_gates 3%nat (custom_gate [0] 2%nat) near_identity_matrix /\
  Forall (fun p => @are_elements_equal reference_lib p.1 p.2 = Ok true)
         (zip (entries identity_matrix) (entries near_identity_matrix)).
Proof.
  split; [exact (gate_stored_at _ _ _ _ _ two_gates_first)|].
  split; [exact (gate_stored_at _ _ _ _ _ two_gates_second)|].
  apply (@eq_true_iff reference_lib two_gates 1%nat 3%nat _ _ _ _
           (gate_stored_at _ _ _ _ _ two_gates_first)
           (gate_stored_at _ _ _ _ _ two_gates_second)).
  exists two_gates. apply eq_first_second.
Defined.

(** X8 at the two specialized gates of [rx_pair]: no matrix is created. *)
Lemma eq_differing_qubits_witness :
  heap rx_pair !! 0%nat = Some (GateObj rx_gate) /\
  @__eq__ reference_lib (PyRef 0%nat) (PyRef 1%nat) rx_pair = (Ok false, rx_pair).
Proof.
  split; [reflexivity|].
  apply (@eq_differing_qubits reference_lib rx_pair 0%nat 1%nat rx_gate _ eq_refl eq_refl).
  discriminate.
Defined.

(** X9 at the two gates of [theta_pair]: the same symbol, at different
    places; the first pair of entries is [theta] against [0]. *)
Lemma eq_raises_iff_witness :
  gate_at theta_pair 1%nat (custom_gate [0] 0%nat) theta_matrix /\
  gate_at theta_pair 3%nat (custom_gate [0] 2%nat) theta_swapped_matrix /\
  exists s', @__eq__ reference_lib (PyRef 1%nat) (PyRef 3%nat) theta_pair
             = (Raise TypeError, s').
Proof.
  assert (Ha : gate_at theta_pair 1%nat (custom_gate [0] 0%nat) theta_matrix)
    by (split; reflexivity).
  assert (Hb : gate_at theta_pair 3%nat (custom_gate [0] 2%nat) theta_swapped_matrix)
    by (split; reflexivity).
  split; [exact Ha|]. split; [exact Hb|].
  apply (@eq_raises_iff reference_lib theta_pair 1%nat 3%nat _ _ _ _ TypeError Ha Hb).
  split; [reflexivity|]. split; [reflexivity|]. split.
  - unfold params_of. simpl. set_solver.
  - exists 0%nat, (Symbol "theta", Integer 0). split_and!; [reflexivity | reflexivity |].
    constructor.
Defined.

(** ** The constructors and Gate.evaluate *)

Section construction_and_evaluation.
Context {L : SympyLib}.

Lemma params_of_evalf (m : Matrix) : params_of (Matrix_map evalf m) ⊆ params_of m.
Proof.
  unfold params_of, Matrix_map. cbn [entries].
  induction (entries m) as [|e es IH]; simpl; [set_solver|].
  pose proof (evalf_free_symbols e). set_solver.
Qed.

Lemma valid_gate_Matrix_map (f : expr -> expr) (g g' : Gate) (m : Matrix) :
  qubits g' = qubits g -> valid_gate g m -> valid_gate g' (Matrix_map f m).
Proof.
  intros Hq (Hshape & Hlen & Hnd). unfold valid_gate. rewrite Hq. split_and!.
  - exact Hshape.
  - unfold Matrix_map, Matrix_len. cbn [entries rows cols]. rewrite length_map. exact Hlen.
  - exact Hnd.
Qed.

(** X10.  Whenever the constructor of CustomGate returns, the gate it
    returns meets the invariant of the data model (for a matrix that holds
    as many entries as its shape says): its matrix is a new object, the
    argument is left as it was, and the entries of the new matrix, the
    evaluated entries of the argument, have no free symbol that the
    argument had not. *)
Theorem CustomGate_invariant (s : state) (matrix_arg : loc) (m : Matrix)
    (qs : list Z) (self : loc) (s' : state) :
  heap s !! matrix_arg = Some (MatrixObj m) ->
  length (entries m) = Matrix_len m ->
  CustomGate matrix_arg qs s = (Ok self, s') ->
  exists ml,
    gate_stored s' self (custom_gate qs ml) ml (Matrix_map evalf m) /\
    valid_gate (custom_gate qs ml) (Matrix_map evalf m) /\
    ml <> matrix_arg /\
    heap s' !! matrix_arg = Some (MatrixObj m) /\
    params_of (Matrix_map evalf m) ⊆ params_of m.
Proof.
  intros Hm Hlen Hrun.
  destruct (is_valid_operator m qs) eqn:Hvalid.
  2:{ rewrite (CustomGate_invalid_shape s matrix_arg m qs Hm Hvalid) in Hrun.
      discriminate. }
  destruct (are_qubits_unique qs) eqn:Hunique.
  2:{ destruct (CustomGate_repeated_qubit s matrix_arg m qs Hm Hunique) as [msg Hmsg].
      rewrite Hmsg in Hrun. discriminate. }
  rewrite (CustomGate_ok s matrix_arg m qs Hm Hvalid Hunique) in Hrun.
  injection Hrun as <- <-.
  assert (Hlt : (matrix_arg < length (heap s))%nat) by (eapply lookup_lt_Some; exact Hm).
  exists (length (heap s)). unfold gate_stored. cbn [heap _matrix custom_gate]. split_and!.
  - apply list_lookup_middle. rewrite length_app. simpl. lia.
  - reflexivity.
  - apply lookup_app_l_Some. apply list_lookup_middle. reflexivity.
  - apply (valid_gate_Matrix_map evalf {| gate_cls := CustomGate_cls; qubits := qs;
                                          _matrix := None |}); [reflexivity|].
    split_and!; cbn [qubits].
    + apply is_valid_operator_shape. exact Hvalid.
    + exact Hlen.
    + apply are_qubits_unique_NoDup. exact Hunique.
  - lia.
  - do 2 apply lookup_app_l_Some. exact Hm.
  - apply params_of_evalf.
Qed.

Lemma mismatch_warnings_nil_iff (params : gset string) (keys : list key) :
  mismatch_warnings params keys = [] <->
  forall symbol, symbol ∈ keys -> exists name, symbol = KSym name /\ name ∈ params.
Proof.
  unfold mismatch_warnings.
  destruct (existsb (fun symbol => negb (key_in symbol params)) keys) eqn:Hex.
  - split; [discriminate|]. intros Hall. exfalso.
    apply existsb_exists in Hex as (symbol & Hin & Hneg).
    apply list_elem_of_In in Hin. destruct (Hall symbol Hin) as (name & -> & Hname).
    simpl in Hneg. rewrite bool_decide_eq_true_2 in Hneg by exact Hname. discriminate.
  - split; [|reflexivity]. intros _ symbol Hin.
    assert (Hkey : key_in symbol params = true).
    { destruct (key_in symbol params) eqn:Hk; [reflexivity|]. exfalso.
      assert (Hex' : existsb (fun symbol => negb (key_in symbol params)) keys = true).
      { apply existsb_exists. exists symbol. split; [apply list_elem_of_In; exact Hin|].
        rewrite Hk. reflexivity. }
      congruence. }
    destruct symbol as [str_key|name]; simpl in Hkey; [discriminate|].
    exists name. split; [reflexivity|]. apply bool_decide_eq_true in Hkey. exact Hkey.
Qed.

(** X11.  On a gate that meets the invariant, [evaluate] emits at most one
    warning, the one about symbols, and it emits none exactly when every key
    of the mapping is a sympy symbol that is a free symbol of the gate's
    matrix.  A key that is a string, or a symbol the gate does not have,
    brings the warning. *)
Theorem evaluate_warns_iff (s : state) (self : loc) (g : Gate) (m : Matrix)
    (symbols_map : substitution) :
  gate_at s self g m -> valid_gate g m ->
  exists new s',
    evaluate self symbols_map s = (Ok new, s') /\
    (warnings s' = warnings s \/
     warnings s' = warnings s ++ [SymbolsMismatch (params_of m) (map fst symbols_map)]) /\
    (warnings s' = warnings s <->
     forall symbol, symbol ∈ map fst symbols_map ->
       exists name, symbol = KSym name /\ name ∈ params_of m).
Proof.
  intros Hat Hvalid.
  destruct (evaluate_run s self g m symbols_map Hat (valid_gate_entries g m Hvalid))
    as (ml & g1 & s1 & _ & _ & _ & _ & _ & _ & _ & Heval).
  { apply is_valid_operator_shape. apply Hvalid. }
  { apply are_qubits_unique_NoDup. apply Hvalid. }
  eexists _, _. split; [exact Heval|]. cbn [warnings].
  rewrite <- mismatch_warnings_nil_iff. split.
  - unfold mismatch_warnings. destruct (existsb _ (map fst symbols_map)).
    + right. reflexivity.
    + left. apply app_nil_r.
  - split.
    + intros H. rewrite <- (app_nil_r (warnings s)) in H at 2.
      apply app_inv_head in H. exact H.
    + intros ->. apply app_nil_r.
Qed.

(** X12.  On a gate that meets the invariant, [evaluate] returns a gate
    that meets the invariant too: a CustomGate whose entries are, place by
    place, the evaluated results of the loop body on the entries of the
    source gate.  So the result can be evaluated again, with any mapping. *)
Theorem evaluate_result (s : state) (self : loc) (g : Gate) (m : Matrix)
    (symbols_map : substitution) :
  gate_at s self g m -> valid_gate g m ->
  exists new g' m' s',
    evaluate self symbols_map s = (Ok new, s') /\
    gate_at s' new g' m' /\ valid_gate g' m' /\
    gate_cls g' = CustomGate_cls /\ qubits g' = qubits g /\
    Forall2 (fun element new_element =>
               exists x, evaluate_element symbols_map element = Ok x /\
                         new_element = evalf x)
            (entries m) (entries m') /\
    (forall symbols_map',
       exists new' s'', evaluate new symbols_map' s' = (Ok new', s'')).
Proof.
  intros Hat Hvalid.
  destruct (evaluate_run s self g m symbols_map Hat (valid_gate_entries g m Hvalid))
    as (ml & g1 & s1 & _ & _ & _ & _ & _ & _ & _ & Heval).
  { apply is_valid_operator_shape. apply Hvalid. }
  { apply are_qubits_unique_NoDup. apply Hvalid. }
  set (g' := {| gate_cls := CustomGate_cls; qubits := qubits g;
                _matrix := Some (S (length (heap s1))) |}) in *.
  set (m' := Matrix_map evalf (Matrix_map (evaluated symbols_map) m)) in *.
  assert (Hvalid' : valid_gate g' m').
  { apply (valid_gate_Matrix_map evalf g); [reflexivity|].
    apply (valid_gate_Matrix_map _ g); [reflexivity | exact Hvalid]. }
  match type of Heval with _ = (_, ?st) => set (s' := st) in * end.
  assert (Hat' : gate_at s' (S (S (length (heap s1)))) g' m').
  { unfold gate_at, s'. cbn [heap _matrix g']. split.
    - rewrite (lookup_app_r (heap s1)) by lia.
      replace (S (S (length (heap s1))) - length (heap s1))%nat with 2%nat by lia.
      reflexivity.
    - rewrite (lookup_app_r (heap s1)) by lia.
      replace (S (length (heap s1)) - length (heap s1))%nat with 1%nat by lia.
      reflexivity. }
  exists (S (S (length (heap s1)))), g', m', s'.
  split_and!; try assumption; try reflexivity.
  - unfold m', Matrix_map. cbn [entries].
    induction (entries m) as [|e es IH]; simpl; constructor; [|exact IH].
    exists (evaluated symbols_map e). split; [apply evaluate_element_ok | reflexivity].
  - intros symbols_map'.
    destruct (evaluate_run s' _ g' m' symbols_map' Hat' (valid_gate_entries g' m' Hvalid'))
      as (ml2 & g2 & s2 & _ & _ & _ & _ & _ & _ & _ & Heval2).
    { apply is_valid_operator_shape. apply Hvalid'. }
    { apply are_qubits_unique_NoDup. apply Hvalid'. }
    eexists _, _. exact Heval2.
Qed.

Lemma evaluate_matrix_invalid (s : state) (self : loc) (g : Gate) (ml : loc)
    (m : Matrix) (symbols_map : substitution) :
  gate_stored s self g ml m ->
  is_valid_operator m (qubits g) && are_qubits_unique (qubits g) = false ->
  exists s',
    evaluate_matrix self symbols_map s =
      (Raise (ValueError (if is_valid_operator m (qubits g) then QubitsNotUnique
                          else InvalidShape (shape m) (length (qubits g)))), s').
Proof.
  intros Hs Hinvalid. eexists. unfold evaluate_matrix.
  rewrite (bind_ok _ _ _ _ _ (matrix_stored _ _ _ _ _ Hs)).
  destruct Hs as (Hg & Hc & Hm).
  unfold deepcopy_matrix.
  erewrite bind_ok; cycle 1.
  { erewrite bind_ok by (apply read_matrix_ok; exact Hm). reflexivity. }
  erewrite bind_ok; cycle 1.
  { apply read_matrix_ok. cbn [heap]. apply list_lookup_middle. reflexivity. }
  erewrite bind_ok; cycle 1.
  { apply (for_each_element_map _ _ (evaluated symbols_map) m).
    - cbn [heap]. apply list_lookup_middle. reflexivity.
    - intros e _. apply evaluate_element_ok. }
  cbn [heap warnings]. rewrite insert_last.
  erewrite bind_ok; cycle 1.
  { apply get_qubits_ok. cbn [heap]. apply lookup_app_l_Some. exact Hg. }
  unfold CustomGate.
  erewrite bind_ok; cycle 1.
  { apply read_matrix_ok. cbn [heap]. apply list_lookup_middle. reflexivity. }
  change (is_valid_operator _ (qubits g)) with (is_valid_operator m (qubits g)).
  change (shape {| rows := rows m; cols := cols m;
                   entries := map (evaluated symbols_map) (entries m) |})
    with (shape m).
  destruct (is_valid_operator m (qubits g)); cbn [negb]; [|reflexivity].
  simpl in Hinvalid. rewrite Hinvalid. reflexivity.
Qed.

(** [evaluate] on a gate that does not meet the invariant: the
    constructor of the new gate raises. *)
Lemma evaluate_invalid (s : state) (self : loc) (g : Gate) (m : Matrix)
    (symbols_map : substitution) :
  gate_at s self g m -> entries m <> [] ->
  is_valid_operator m (qubits g) && are_qubits_unique (qubits g) = false ->
  exists s',
    evaluate self symbols_map s =
      (Raise (ValueError (if is_valid_operator m (qubits g) then QubitsNotUnique
                          else InvalidShape (shape m) (length (qubits g)))), s').
Proof.
  intros Hat Hne Hinvalid.
  destruct (matrix_forced s self g m Hat)
    as (ml & g1 & s1 & Hrun & Hs1 & Hq & _).
  destruct (evaluate_matrix_invalid s1 self g1 ml m symbols_map Hs1) as [s' Hs'].
  { rewrite Hq. exact Hinvalid. }
  rewrite Hq in Hs'.
  unfold evaluate.
  erewrite bind_ok; cycle 1.
  { unfold is_parameterized, matrix_elements.
    erewrite bind_ok; cycle 1.
    { rewrite (bind_ok _ _ _ _ _ Hrun).
      rewrite (bind_ok _ _ _ _ _ (read_matrix_ok _ _ _ (proj2 (proj2 Hs1)))).
      reflexivity. }
    reflexivity. }
  rewrite existsb_isinstance_Expr, bool_decide_eq_false_2 by exact Hne. simpl.
  erewrite bind_ok; cycle 1.
  { apply (any_pure _ (fun symbol => negb (key_in symbol (params_of m)))).
    intros symbol _.
    rewrite (bind_ok _ _ _ _ _ (symbolic_params_stored _ _ _ _ _ Hs1)). reflexivity. }
  destruct (existsb _ (map fst symbols_map)).
  - erewrite bind_ok; cycle 1.
    { rewrite (bind_ok _ _ _ _ _ (symbolic_params_stored _ _ _ _ _ Hs1)). reflexivity. }
    fold (evaluate_matrix self symbols_map).
    destruct (evaluate_matrix_invalid
                {| heap := heap s1;
                   warnings := warnings s1 ++
                     [SymbolsMismatch (params_of m) (map fst symbols_map)] |}
                self g1 ml m symbols_map) as [s'' Hs''].
    { exact Hs1. }
    { rewrite Hq. exact Hinvalid. }
    rewrite Hq in Hs''. exists s''. exact Hs''.
  - erewrite bind_ok by reflexivity.
    fold (evaluate_matrix self symbols_map). exists s'. exact Hs'.
Qed.

(** X13.  The constructor of a specialized gate checks nothing: it
    returns a gate for any tuple of qubits, whatever [_create_matrix] will
    return, and creates no matrix.  When that matrix (with an entry at
    least) has not the shape the qubits ask for, or a qubit is repeated,
    the gate exists all the same, and it is [evaluate] that raises the
    ValueError of the constructor of CustomGate. *)
Theorem SpecializedGate_not_validated (s : state) (created : Matrix) (qs : list Z)
    (symbols_map : substitution) :
  entries created <> [] ->
  ~ (shape created = (2 ^ length qs, 2 ^ length qs)%nat /\ NoDup qs) ->
  exists self s1 msg s2,
    SpecializedGate created qs s = (Ok self, s1) /\
    heap s !! self = None /\
    length (heap s1) = S (length (heap s)) /\
    gate_at s1 self {| gate_cls := SpecializedGate_cls created; qubits := qs;
                       _matrix := None |} created /\
    evaluate self symbols_map s1 = (Raise (ValueError msg), s2).
Proof.
  intros Hne Hinvalid.
  set (g := {| gate_cls := SpecializedGate_cls created; qubits := qs;
               _matrix := None |}).
  set (s1 := {| heap := heap s ++ [GateObj g]; warnings := warnings s |}).
  assert (Hat : gate_at s1 (length (heap s)) g created).
  { split; [|reflexivity]. cbn [heap s1]. apply list_lookup_middle. reflexivity. }
  destruct (evaluate_invalid s1 (length (heap s)) g created symbols_map Hat Hne)
    as [s2 Hs2].
  { cbn [qubits g]. apply andb_false_iff.
    destruct (is_valid_operator created qs) eqn:Hvalid; [right | left; reflexivity].
    apply not_true_is_false. intros Hunique. apply Hinvalid. split.
    - apply is_valid_operator_shape. exact Hvalid.
    - apply are_qubits_unique_NoDup. exact Hunique. }
  eexists (length (heap s)), s1, _, s2. split_and!.
  - reflexivity.
  - apply lookup_ge_None. lia.
  - cbn [heap s1]. rewrite length_app. simpl. lia.
  - exact Hat.
  - exact Hs2.
Qed.

End construction_and_evaluation.

(** C5 as stated fails: [evaluate] does not return a gate for every gate.
    The constructor of a specialized gate checks nothing, so the gate of
    [repeated_store], on the qubits [(0, 0)] with the matrix of a rotation
    of one qubit, is built; on this gate [evaluate] raises ValueError, with
    every mapping, whatever the library operations are. *)
Lemma evaluate_raises_on_repeated_qubits :
  SpecializedGate rx_matrix [0; 0] {| heap := []; warnings := [] |}
  = (Ok 0%nat, repeated_store) /\
  gate_at repeated_store 0%nat repeated_gate rx_matrix /\
  (forall (L : SympyLib) (symbols_map : substitution),
     exists msg s',
       evaluate 0%nat symbols_map repeated_store = (Raise (ValueError msg), s')).
Proof.
  assert (Hat : gate_at repeated_store 0%nat repeated_gate rx_matrix)
    by (split; reflexivity).
  split; [reflexivity|]. split; [exact Hat|].
  intros L symbols_map.
  destruct (@evaluate_invalid L repeated_store 0%nat repeated_gate rx_matrix
              symbols_map Hat) as [s' Hrun].
  - discriminate.
  - reflexivity.
  - eexists _, s'. exact Hrun.
Qed.

(** X10 at the identity matrix of [rx_store] and qubit 0. *)
Lemma CustomGate_invariant_witness :
  heap rx_store !! 1%nat = Some (MatrixObj identity_matrix) /\
  length (entries identity_matrix) = Matrix_len identity_matrix /\
  exists self s' ml,
    @CustomGate reference_lib 1%nat [0] rx_store = (Ok self, s') /\
    valid_gate (custom_gate [0] ml) (Matrix_map ref_evalf identity_matrix).
Proof.
  split; [reflexivity|]. split; [reflexivity|].
  assert (Hrun : @CustomGate reference_lib 1%nat [0] rx_store
                 = (Ok 3%nat,
                    {| heap := heap rx_store ++
                         [MatrixObj (Matrix_map ref_evalf identity_matrix);
                          GateObj (custom_gate [0] 2%nat)];
                       warnings := [] |})) by reflexivity.
  destruct (@CustomGate_invariant reference_lib rx_store 1%nat identity_matrix [0] _ _
              eq_refl eq_refl Hrun) as (ml & _ & Hvalid & _).
  eexists _, _, ml. split; [exact Hrun | exact Hvalid].
Defined.

(** X11 at the specialized gate of [rx_store], with the symbol [theta] as
    the only key: no warning. *)
Lemma evaluate_warns_iff_witness :
  gate_at rx_store 0%nat rx_gate rx_matrix /\ valid_gate rx_gate rx_matrix /\
  exists new s',
    @evaluate reference_lib 0%nat [(KSym "theta", Float 0.5)] rx_store = (Ok new, s') /\
    warnings s' = [].
Proof.
  split; [exact rx_gate_at|]. split; [exact valid_rx_gate|].
  destruct (@evaluate_warns_iff reference_lib rx_store 0%nat rx_gate rx_matrix
              [(KSym "theta", Float 0.5)] rx_gate_at valid_rx_gate)
    as (new & s' & Hrun & _ & Hiff).
  exists new, s'. split; [exact Hrun|]. apply Hiff.
  intros symbol Hin. apply list_elem_of_singleton in Hin as ->.
  exists "theta"%string. split; [reflexivity|].
  rewrite params_of_rx_matrix. set_solver.
Defined.

(** X12 at the custom gate of [theta_store], with [{theta: 0.5}]. *)
Lemma evaluate_result_witness :
  gate_at theta_store 1%nat (custom_gate [0] 0%nat) theta_matrix /\
  valid_gate (custom_gate [0] 0%nat) theta_matrix /\
  exists new g' m' s',
    @evaluate reference_lib 1%nat [(KSym "theta", Float 0.5)] theta_store
    = (Ok new, s') /\
    gate_at s' new g' m' /\ valid_gate g' m'.
Proof.
  split; [exact theta_gate_at|]. split; [exact valid_theta_gate|].
  destruct (@evaluate_result reference_lib theta_store 1%nat (custom_gate [0] 0%nat)
              theta_matrix [(KSym "theta", Float 0.5)] theta_gate_at valid_theta_gate)
    as (new & g' & m' & s' & Hrun & Hat & Hvalid & _).
  exists new, g', m', s'. split_and!; assumption.
Defined.

(** X13 with the one-qubit matrix of the rotation and the qubits [(0, 0)]. *)
Lemma SpecializedGate_not_validated_witness :
  entries rx_matrix <> [] /\
  ~ (shape rx_matrix = (2 ^ length [0; 0], 2 ^ length [0; 0])%nat /\ NoDup [0; 0]) /\
  exists self s1 msg s2,
    SpecializedGate rx_matrix [0; 0] rx_store = (Ok self, s1) /\
    @evaluate reference_lib self [] s1 = (Raise (ValueError msg), s2).
Proof.
  assert (Hne : entries rx_matrix <> []) by discriminate.
  assert (Hinvalid : ~ (shape rx_matrix = (2 ^ length [0; 0], 2 ^ length [0; 0])%nat
                        /\ NoDup [0; 0])).
  { intros [Hshape _]. discriminate. }
  split; [exact Hne|]. split; [exact Hinvalid|].
  destruct (@SpecializedGate_not_validated reference_lib rx_store rx_matrix [0; 0] []
              Hne Hinvalid) as (self & s1 & msg & s2 & Hnew & _ & _ & _ & Hrun).
  exists self, s1, msg, s2. split; assumption.
Defined.

(** ** Gate.to_dict and Gate.load *)

Section dictionaries.
Context {L : SympyLib}.
Variable SCHEMA_VERSION : string.

(** X14.  The serializable dictionary of a gate (whose matrix holds as
    many entries as its shape says) has the schema [SCHEMA_VERSION] followed
    by [-gate], the qubits of the gate, one list of strings for each row of
    the matrix, each as long as a row, which, one after the other, are the
    entries of the matrix printed in row-major order, and the names of the
    free symbols of the matrix, each once. *)
Theorem to_dict_serializable (s : state) (self : loc) (g : Gate) (m : Matrix) :
  gate_at s self g m -> length (entries m) = Matrix_len m ->
  exists d rs names s',
    to_dict SCHEMA_VERSION (PyRef self) true s = (Ok d, s') /\
    d_schema d = (SCHEMA_VERSION ++ "-gate")%string /\ d_qubits d = qubits g /\
    d_matrix d = Rows rs /\ length rs = rows m /\
    Forall (fun r => length r = cols m) rs /\
    concat rs = map str (entries m) /\
    d_symbolic_params d = ParamNames names /\ NoDup names /\
    (forall name, name ∈ names <-> name ∈ params_of m) /\
    warnings s' = warnings s.
Proof.
  intros Hat Hlen.
  assert (Hg : heap s !! self = Some (GateObj g)) by apply Hat.
  destruct (matrix_forced s self g m Hat)
    as (ml & g1 & s1 & Hrun & Hs1 & Hq & _ & _ & Hw & _).
  eexists _, (map (fun i => map str (row m i)) (seq 0 (rows m))),
    (elements (params_of m)), s1.
  split_and!.
  - unfold to_dict.
    rewrite (bind_ok _ _ _ _ _ (get_qubits_ok _ _ _ Hg)).
    rewrite (bind_ok _ _ _ _ _ Hrun).
    rewrite (bind_ok _ _ _ _ _ (read_matrix_ok _ _ _ (proj2 (proj2 Hs1)))).
    rewrite (bind_ok _ _ _ _ _ (symbolic_params_stored _ _ _ _ _ Hs1)).
    reflexivity.
  - reflexivity.
  - reflexivity.
  - reflexivity.
  - rewrite length_map, length_seq. reflexivity.
  - apply Forall_forall. intros r Hr.
    apply list_elem_of_In, in_map_iff in Hr as (i & <- & Hi). apply in_seq in Hi.
    unfold row, Matrix_len in *. rewrite length_map, length_take, length_drop. nia.
  - rewrite <- (map_map (row m) (map str)), <- concat_map. f_equal.
    unfold row. apply rows_concat. exact Hlen.
  - reflexivity.
  - apply NoDup_elements.
  - intros name. apply elem_of_elements.
  - exact Hw.
Qed.

Lemma zip_evalf (Q : expr -> expr -> Prop) (es : list expr) :
  Forall (fun p => Q p.1 p.2) (zip (map evalf es) es) <->
  Forall (fun element => Q (evalf element) element) es.
Proof.
  induction es as [|e es IH]; simpl; [split; constructor|].
  rewrite !Forall_cons, IH. reflexivity.
Qed.

(** X15.  The dictionary that is not serializable holds the qubits of the
    gate, its set of symbols and the gate's own matrix object.  For a gate
    that meets the invariant, [load] on this dictionary does not take the
    matrix over: the gate it returns has a matrix object of its own, which
    holds the evaluated entries, and the matrix of the source gate is left
    as it was.  The loaded gate is equal to the source exactly when the
    evaluated entries have the free symbols of the entries and each is found
    equal to the entry it comes from by the comparison of elements. *)
Theorem to_dict_raw_load (s : state) (self : loc) (g : Gate) (m : Matrix) :
  gate_at s self g m -> valid_gate g m ->
  exists d ml s1 loaded ml' s2,
    to_dict SCHEMA_VERSION (PyRef self) false s = (Ok d, s1) /\
    d_qubits d = qubits g /\ d_matrix d = RawMatrix ml /\
    d_symbolic_params d = RawParams (params_of m) /\
    matrix (PyRef self) s1 = (Ok ml, s1) /\
    load d s1 = (Ok loaded, s2) /\
    heap s1 !! loaded = None /\
    heap s2 !! loaded = Some (GateObj (custom_gate (qubits g) ml')) /\
    ml' <> ml /\
    heap s2 !! ml' = Some (MatrixObj (Matrix_map evalf m)) /\
    heap s2 !! ml = Some (MatrixObj m) /\
    (__eq__ (PyRef loaded) (PyRef self) s2 = (Ok true, s2) <->
     params_of (Matrix_map evalf m) = params_of m /\
     Forall (fun element => are_elements_equal (evalf element) element = Ok true)
            (entries m)).
Proof.
  intros Hat Hvalid.
  assert (Hg : heap s !! self = Some (GateObj g)) by apply Hat.
  destruct (matrix_forced s self g m Hat)
    as (ml & g1 & s1 & Hrun & Hs1 & Hq & _).
  destruct Hvalid as (Hshape & Hentries & Hnodup).
  assert (Hml : (ml < length (heap s1))%nat).
  { eapply lookup_lt_Some. apply Hs1. }
  set (s2 := {| heap := (heap s1 ++ [MatrixObj (Matrix_map evalf m)])
                        ++ [GateObj {| gate_cls := CustomGate_cls; qubits := qubits g;
                                       _matrix := Some (length (heap s1)) |}];
                warnings := warnings s1 |}).
  eexists _, ml, s1, (S (length (heap s1))), (length (heap s1)), s2.
  split_and!.
  - unfold to_dict.
    rewrite (bind_ok _ _ _ _ _ (get_qubits_ok _ _ _ Hg)).
    rewrite (bind_ok _ _ _ _ _ Hrun).
    rewrite (bind_ok _ _ _ _ _ (symbolic_params_stored _ _ _ _ _ Hs1)).
    reflexivity.
  - reflexivity.
  - reflexivity.
  - reflexivity.
  - apply (matrix_stored _ _ _ _ _ Hs1).
  - unfold load. cbn [d_matrix d_qubits].
    apply (CustomGate_ok s1 ml m (qubits g)).
    + apply Hs1.
    + apply is_valid_operator_shape. exact Hshape.
    + apply are_qubits_unique_NoDup. exact Hnodup.
  - apply lookup_ge_None. lia.
  - cbn [heap s2]. apply list_lookup_middle. rewrite length_app. simpl. lia.
  - lia.
  - cbn [heap s2]. apply lookup_app_l_Some. apply list_lookup_middle. reflexivity.
  - cbn [heap s2]. do 2 apply lookup_app_l_Some. apply Hs1.
  - assert (Hloaded : gate_stored s2 (S (length (heap s1)))
                        {| gate_cls := CustomGate_cls; qubits := qubits g;
                           _matrix := Some (length (heap s1)) |}
                        (length (heap s1)) (Matrix_map evalf m)).
    { unfold gate_stored, s2. cbn [heap _matrix]. split_and!.
      - apply list_lookup_middle. rewrite length_app. simpl. lia.
      - reflexivity.
      - apply lookup_app_l_Some. apply list_lookup_middle. reflexivity. }
    assert (Hsaved : gate_stored s2 self g1 ml m).
    { destruct Hs1 as (H1 & H2 & H3). unfold gate_stored, s2. cbn [heap]. split_and!.
      - do 2 apply lookup_app_l_Some. exact H1.
      - exact H2.
      - do 2 apply lookup_app_l_Some. exact H3. }
    rewrite (eq_stored _ _ _ _ _ _ _ _ _ Hloaded Hsaved). cbn [qubits].
    rewrite Hq.
    rewrite <- (zip_evalf (fun a b => are_elements_equal a b = Ok true)).
    split.
    + intros H. injection H as H.
      apply compare_contents_true_iff in H as (_ & _ & Hparams & Hall).
      split; assumption.
    + intros [Hparams Hall].
      assert (Hcmp : compare_contents (qubits g) (qubits g) (Matrix_map evalf m) m
                     = Ok true).
      { apply compare_contents_true_iff. split_and!; try reflexivity; assumption. }
      rewrite Hcmp. reflexivity.
Qed.

Lemma CustomGate_raises (s : state) (matrix_arg : loc) (m : Matrix) (qs : list Z) :
  heap s !! matrix_arg = Some (MatrixObj m) ->
  is_valid_operator m qs && are_qubits_unique qs = false ->
  CustomGate matrix_arg qs s =
    (Raise (ValueError (if is_valid_operator m qs then QubitsNotUnique
                        else InvalidShape (shape m) (length qs))), s).
Proof.
  intros Hm Hinvalid. unfold CustomGate.
  rewrite (bind_ok _ _ _ _ _ (read_matrix_ok _ _ _ Hm)).
  destruct (is_valid_operator m qs); cbn [negb]; [|reflexivity].
  simpl in Hinvalid. rewrite Hinvalid. reflexivity.
Qed.

(** X16.  [load] on a dictionary whose matrix is a list of rows of
    strings; the schema and the symbolic parameters of the dictionary are
    not looked at.  Every string goes through [sympify], in row-major
    order.  When a string is not parsed, [load] raises the exception of
    [sympify], whatever the shape and the qubits are, and changes nothing.
    When all are parsed as expressions, in rows of one length: with
    [2 ^ len(qubits)] rows of that length and pairwise distinct qubits
    [load] returns a new CustomGate with these qubits whose entries are the
    parsed expressions, evaluated, in row-major order; for any other shape
    it raises the ValueError that reports the shape, and for a repeated
    qubit the one about unique qubits.  When a string is parsed as an object
    that is no expression (a function class), the shape is right and the
    qubits are distinct, it raises what [evalf] raises on the first such
    object. *)
Theorem load_rows_validates (s : state) (data : gate_dict) (rs : list (list string)) :
  d_matrix data = Rows rs ->
  (forall before element after e,
     concat rs = before ++ element :: after ->
     Forall (fun x => exists value, sympify x = Ok value) before ->
     sympify element = Raise e ->
     load data s = (Raise e, s)) /\
  (forall (new_rows : list (list expr)) (c : nat),
     Forall2 (Forall2 (fun element e => sympify element = Ok (Expression e)))
             rs new_rows ->
     rs <> [] -> Forall (fun r => length r = c) rs ->
     (length rs = (2 ^ length (d_qubits data))%nat ->
      c = (2 ^ length (d_qubits data))%nat -> NoDup (d_qubits data) ->
      exists loaded ml s',
        load data s = (Ok loaded, s') /\
        heap s !! loaded = None /\
        gate_stored s' loaded (custom_gate (d_qubits data) ml) ml
          {| rows := length rs; cols := c;
             entries := map evalf (concat new_rows) |}) /\
     (~ (length rs = (2 ^ length (d_qubits data))%nat /\
         c = (2 ^ length (d_qubits data))%nat) ->
      exists s',
        load data s = (Raise (ValueError (InvalidShape (length rs, c)
                                            (length (d_qubits data)))), s')) /\
     (length rs = (2 ^ length (d_qubits data))%nat ->
      c = (2 ^ length (d_qubits data))%nat -> ~ NoDup (d_qubits data) ->
      exists s', load data s = (Raise (ValueError QubitsNotUnique), s'))) /\
  (forall (cells : list (list sympified)) (c : nat) (before : list expr)
          (e : exn) (after : list sympified),
     Forall2 (Forall2 (fun element value => sympify element = Ok value)) rs cells ->
     concat cells = map Expression before ++ NotExpression e :: after ->
     Forall (fun r => length r = c) rs ->
     length rs = (2 ^ length (d_qubits data))%nat ->
     c = (2 ^ length (d_qubits data))%nat -> NoDup (d_qubits data) ->
     load data s = (Raise e, s)).
Proof.
  intros Hrows. split_and!.
  - intros before element after e Hconcat Hbefore Helement.
    unfold load. rewrite Hrows. unfold lift, bind.
    rewrite (sympify_rows_raises rs before element after e Hconcat Hbefore Helement).
    reflexivity.
  - intros new_rows c Hparsed Hne Hall.
    assert (Hlength : length new_rows = length rs).
    { symmetry. exact (Forall2_length _ _ _ Hparsed). }
    assert (Hne' : new_rows <> []).
    { intros ->. destruct rs; [congruence | discriminate]. }
    pose proof (rows_same_length _ _ _ c Hparsed Hall) as Hall'.
    rewrite (load_rows_run s data rs new_rows Hrows Hparsed).
    rewrite (Matrix_of_rows_rectangular new_rows c Hne' Hall'), Hlength.
    set (m := {| rows := length rs; cols := c; entries := concat new_rows |}).
    set (s1 := {| heap := heap s ++ [MatrixObj m]; warnings := warnings s |}).
    assert (Hm : heap s1 !! length (heap s) = Some (MatrixObj m)).
    { cbn [heap s1]. apply list_lookup_middle. reflexivity. }
    assert (Hs1 : length (heap s1) = S (length (heap s))).
    { cbn [heap s1]. rewrite length_app. simpl. lia. }
    split_and!.
    + intros Hr Hc Hnd.
      rewrite (CustomGate_ok s1 _ m (d_qubits data) Hm).
      * eexists _, (length (heap s1)), _. split; [reflexivity|]. split.
        -- apply lookup_ge_None. lia.
        -- unfold gate_stored. cbn [heap _matrix custom_gate]. split_and!.
           ++ apply list_lookup_middle. rewrite length_app. simpl. lia.
           ++ reflexivity.
           ++ apply lookup_app_l_Some. apply list_lookup_middle. reflexivity.
      * apply is_valid_operator_shape. unfold shape, m. cbn [rows cols]. congruence.
      * apply are_qubits_unique_NoDup. exact Hnd.
    + intros Hshape. exists s1.
      assert (Hvalid : is_valid_operator m (d_qubits data) = false).
      { apply not_true_is_false. rewrite is_valid_operator_shape.
        unfold shape, m. cbn [rows cols]. intros H. injection H as H1 H2. tauto. }
      rewrite (CustomGate_raises s1 _ m (d_qubits data) Hm) by (rewrite Hvalid; reflexivity).
      rewrite Hvalid. reflexivity.
    + intros Hr Hc Hnd. exists s1.
      assert (Hvalid : is_valid_operator m (d_qubits data) = true).
      { apply is_valid_operator_shape. unfold shape, m. cbn [rows cols]. congruence. }
      assert (Hunique : are_qubits_unique (d_qubits data) = false).
      { apply not_true_is_false. rewrite are_qubits_unique_NoDup. exact Hnd. }
      rewrite (CustomGate_raises s1 _ m (d_qubits data) Hm)
        by (rewrite Hvalid, Hunique; reflexivity).
      rewrite Hvalid. reflexivity.
  - intros cells c before e after Hcells Hconcat Hall Hr Hc Hnd.
    assert (Hne : cells <> []).
    { intros ->. simpl in Hconcat. destruct before; discriminate. }
    pose proof (rows_same_length _ _ _ c Hcells Hall) as Hall'.
    assert (Hlength : length cells = length rs).
    { symmetry. exact (Forall2_length _ _ _ Hcells). }
    unfold load. rewrite Hrows. unfold lift, bind.
    apply sympify_rows_values in Hcells. rewrite Hcells.
    rewrite Hconcat, first_evalf_error_app, first_evalf_error_Expression. cbn [first_evalf_error].
    unfold CustomGate_of_objects.
    assert (Hhead : match cells with [] => 0%nat | r :: _ => length r end = c).
    { destruct cells as [|r rest]; [congruence|]. apply Forall_cons in Hall'. apply Hall'. }
    rewrite Hhead.
    assert (Hrect : forallb (fun r => bool_decide (length r = c)) cells = true).
    { apply forallb_forall. intros r Hin. apply bool_decide_eq_true_2.
      rewrite Forall_forall in Hall'. apply Hall'. apply list_elem_of_In. exact Hin. }
    rewrite Hrect, Hlength. cbn [negb].
    rewrite bool_decide_eq_true_2 by congruence. cbn [negb].
    rewrite (proj2 (are_qubits_unique_NoDup _) Hnd). reflexivity.
Qed.

End dictionaries.

(** X14 at the custom gate of [theta_store]. *)
Lemma to_dict_serializable_witness :
  gate_at theta_store 1%nat (custom_gate [0] 0%nat) theta_matrix /\
  length (entries theta_matrix) = Matrix_len theta_matrix /\
  exists d s',
    @to_dict reference_lib "zapata-v1" (PyRef 1%nat) true theta_store = (Ok d, s') /\
    d_schema d = "zapata-v1-gate"%string /\ d_qubits d = [0].
Proof.
  split; [exact theta_gate_at|]. split; [reflexivity|].
  destruct (@to_dict_serializable reference_lib "zapata-v1" theta_store 1%nat
              (custom_gate [0] 0%nat) theta_matrix theta_gate_at eq_refl)
    as (d & rs & names & s' & Hrun & Hschema & Hqubits & _).
  exists d, s'. split_and!; assumption.
Defined.

(** X15 at the specialized gate of [integer_store]: the loaded gate holds
    the float [1.0] where the source holds the integer [1], and is equal to
    it. *)
Lemma to_dict_raw_load_witness :
  gate_at integer_store 0%nat integer_gate integer_identity_matrix /\
  valid_gate integer_gate integer_identity_matrix /\
  exists d ml s1 loaded ml' s2,
    @to_dict reference_lib "zapata-v1" (PyRef 0%nat) false integer_store = (Ok d, s1) /\
    d_matrix d = RawMatrix ml /\
    @matrix (PyRef 0%nat) s1 = (Ok ml, s1) /\
    @load reference_lib d s1 = (Ok loaded, s2) /\
    heap s2 !! loaded = Some (GateObj (custom_gate [0] ml')) /\ ml' <> ml /\
    heap s2 !! ml' = Some (MatrixObj (Matrix_map ref_evalf integer_identity_matrix)) /\
    @__eq__ reference_lib (PyRef loaded) (PyRef 0%nat) s2 = (Ok true, s2).
Proof.
  split; [exact integer_gate_at|]. split; [exact valid_integer_gate|].
  destruct (@to_dict_raw_load reference_lib "zapata-v1" integer_store 0%nat
              integer_gate integer_identity_matrix integer_gate_at valid_integer_gate)
    as (d & ml & s1 & loaded & ml' & s2 & Hdict & _ & Hmatrix & _ & Hml & Hload
        & _ & Hloaded & Hne & Hcopy & _ & Heq).
  exists d, ml, s1, loaded, ml', s2. split_and!; try assumption.
  apply Heq. split.
  - unfold params_of, Matrix_map. simpl. set_solver.
  - repeat (constructor; [vm_compute; reflexivity|]). constructor.
Defined.

(** X16 at the rows of the identity on qubit 0, and at rows with the
    string [gamma], which is parsed as a function class. *)
Lemma load_rows_validates_witness :
  (exists loaded s',
     @load reference_lib
       {| d_schema := "zapata-v1-gate"; d_qubits := [0];
          d_matrix := Rows [["1"; "0"]; ["0"; "1"]]%string;
          d_symbolic_params := ParamNames [] |} rx_store = (Ok loaded, s')) /\
  @load reference_lib
    {| d_schema := "zapata-v1-gate"; d_qubits := [0];
       d_matrix := Rows [["1"; "gamma"]; ["gamma"; "1"]]%string;
       d_symbolic_params := ParamNames ["gamma"%string] |} rx_store
  = (Raise TypeError, rx_store).
Proof.
  split.
  - destruct (@load_rows_validates reference_lib rx_store
                {| d_schema := "zapata-v1-gate"; d_qubits := [0];
                   d_matrix := Rows [["1"; "0"]; ["0"; "1"]]%string;
                   d_symbolic_params := ParamNames [] |}
                _ eq_refl) as (_ & Hparsed & _).
    destruct (Hparsed [[Integer 1; Integer 0]; [Integer 0; Integer 1]] 2%nat)
      as (Hok & _ & _).
    { repeat (constructor; [repeat (constructor; [reflexivity|]); constructor|]).
      constructor. }
    { discriminate. }
    { repeat constructor. }
    destruct (Hok eq_refl eq_refl (NoDup_singleton 0)) as (loaded & ml & s' & Hrun & _).
    exists loaded, s'. exact Hrun.
  - destruct (@load_rows_validates reference_lib rx_store
                {| d_schema := "zapata-v1-gate"; d_qubits := [0];
                   d_matrix := Rows [["1"; "gamma"]; ["gamma"; "1"]]%string;
                   d_symbolic_params := ParamNames ["gamma"%string] |}
                _ eq_refl) as (_ & _ & Hobject).
    apply (Hobject [[Expression (Integer 1); NotExpression TypeError];
                    [NotExpression TypeError; Expression (Integer 1)]]
                   2%nat [Integer 1] TypeError
                   [NotExpression TypeError; Expression (Integer 1)]).
    + repeat (constructor; [repeat (constructor; [reflexivity|]); constructor|]).
      constructor.
    + reflexivity.
    + repeat constructor.
    + reflexivity.
    + reflexivity.
    + apply NoDup_singleton.
Defined.


(** ** Gate.evaluate on a matrix without entries *)

Section evaluation_of_nothing.
Context {L : SympyLib}.

(** X17.  On a gate whose matrix has no entry (the one case in which
    [is_parameterized] is False) [evaluate] warns that the gate is not
    parameterized and returns a deep copy of the gate: a new gate of the
    same class, with the same qubits and the same matrix; the mapping is not
    looked at. *)
Theorem evaluate_empty_matrix (s : state) (self : loc) (g : Gate) (m : Matrix)
    (symbols_map : substitution) :
  gate_at s self g m -> entries m = [] ->
  exists new g' s',
    evaluate self symbols_map s = (Ok new, s') /\
    warnings s' = warnings s ++ [NotParameterized] /\
    heap s !! new = None /\
    gate_at s' new g' m /\ qubits g' = qubits g /\ gate_cls g' = gate_cls g.
Proof.
  intros Hat Hnil.
  destruct (matrix_forced s self g m Hat)
    as (ml & g1 & s1 & Hrun & Hs1 & Hq & Hcls & _ & Hw & Hlen & _).
  set (s1' := {| heap := heap s1; warnings := warnings s1 ++ [NotParameterized] |}).
  assert (Hat1 : gate_at s1' self g1 m).
  { apply (gate_stored_at s1' self g1 ml m). exact Hs1. }
  destruct (deepcopy_gate_spec s1' self g1 m Hat1)
    as (c & gc & s' & Hcopy & Hfresh & Hc & _ & Hqc & Hclsc & Hwc & _).
  exists c, gc, s'. split_and!.
  - unfold evaluate.
    erewrite bind_ok; cycle 1.
    { unfold is_parameterized, matrix_elements.
      erewrite bind_ok; cycle 1.
      { rewrite (bind_ok _ _ _ _ _ Hrun).
        rewrite (bind_ok _ _ _ _ _ (read_matrix_ok _ _ _ (proj2 (proj2 Hs1)))).
        reflexivity. }
      reflexivity. }
    rewrite Hnil. cbn [existsb negb]. exact Hcopy.
  - rewrite Hwc. cbn [warnings s1']. rewrite Hw. reflexivity.
  - apply lookup_ge_None. apply lookup_ge_None in Hfresh. cbn [heap s1'] in Hfresh. lia.
  - exact Hc.
  - congruence.
  - congruence.
Qed.

End evaluation_of_nothing.

(** X17 at the gate of [empty_store], with [{theta: 0.5}]. *)
Lemma evaluate_empty_matrix_witness :
  gate_at empty_store 0%nat empty_gate empty_matrix /\
  entries empty_matrix = [] /\
  exists new s',
    @evaluate reference_lib 0%nat [(KSym "theta", Float 0.5)] empty_store
    = (Ok new, s') /\
    warnings s' = [NotParameterized].
Proof.
  assert (Hat : gate_at empty_store 0%nat empty_gate empty_matrix)
    by (split; reflexivity).
  split; [exact Hat|]. split; [reflexivity|].
  destruct (@evaluate_empty_matrix reference_lib empty_store 0%nat empty_gate
              empty_matrix [(KSym "theta", Float 0.5)] Hat eq_refl)
    as (new & g' & s' & Hrun & Hw & _).
  exists new, s'. split; assumption.
Defined.
